(** * The description normaliser of [process_user_stories.py]

    A shallow embedding of the three functions of the module
    ([remove_acceptance_criteria], [format_description] and
    [process_description]) together with the part of Python's [str] and [re]
    behaviour they rely on, followed by the properties of the normaliser. *)

From Stdlib Require Import List NArith Bool Ascii String Lia Arith.
Import ListNotations.
Local Open Scope list_scope.

(** ** Python text

    A Python [str] is a sequence of Unicode code points.  A code point is a
    natural number; nothing below depends on the upper bound 0x10FFFF. *)

Definition char := N.
Definition text := list char.

Definition nl : char := 10%N.
Definition asterisk : char := 42%N.

(** [py_lit] reads a literal the way the Python source writes it: the two
    characters backslash, n stand for a line feed. *)
Fixpoint py_lit (s : string) : text :=
  match s with
  | EmptyString => []
  | String a s1 =>
      match a, s1 with
      | "\"%char, String "n"%char s2 => nl :: py_lit s2
      | _, _ => N_of_ascii a :: py_lit s1
      end
  end.

(** [str.isspace] on one code point, which is also what [\s] matches in a
    [str] pattern: both are CPython's [Py_UNICODE_ISSPACE]. *)
Definition isspace (c : char) : bool :=
  ((9 <=? c) && (c <=? 13) || (28 <=? c) && (c <=? 32) || (c =? 133)
   || (c =? 160) || (c =? 5760) || (8192 <=? c) && (c <=? 8202)
   || (c =? 8232) || (c =? 8233) || (c =? 8239) || (c =? 8287)
   || (c =? 12288))%N.

Fixpoint lstrip (p : char -> bool) (s : text) : text :=
  match s with
  | [] => []
  | c :: s' => if p c then lstrip p s' else s
  end.

Definition rstrip (p : char -> bool) (s : text) : text :=
  rev (lstrip p (rev s)).

Definition strip_with (p : char -> bool) (s : text) : text :=
  rstrip p (lstrip p s).

(** [s.strip()] *)
Definition strip (s : text) : text := strip_with isspace s.

(** [s.strip(chars)] *)
Definition strip_chars (chars : text) (s : text) : text :=
  strip_with (fun c => existsb (N.eqb c) chars) s.

(** ** Regular expressions

    The fragment of [re] syntax the module uses: single characters and
    character classes, [^] and [$] (no MULTILINE), sequence, alternation,
    greedy and lazy repetition of a character class, the greedy optional
    character, positive lookahead and the capturing group. *)

Inductive regex : Type :=
| Eps
| Chr (p : char -> bool)
| Bol
| Eol
| Seq (r1 r2 : regex)
| Alt (r1 r2 : regex)
| Star (greedy : bool) (p : char -> bool)
| Opt (p : char -> bool)
| Look (r : regex)
| Group (r : regex).

Definition orelse {A : Type} (x y : option A) : option A :=
  match x with
  | Some _ => x
  | None => y
  end.

(** Repetition of a character class, with the backtracking order of the
    engine: a greedy loop tries one more character before it tries the
    continuation, a lazy loop the other way round. [bos] tells whether the
    position is the beginning of the string. *)
Fixpoint star {A : Type} (greedy : bool) (p : char -> bool) (bos : bool)
    (s : text) (k : bool -> text -> option A) : option A :=
  match s with
  | [] => k bos []
  | c :: s' =>
      if greedy
      then (if p c then orelse (star greedy p false s' k) (k bos s)
            else k bos s)
      else orelse (k bos s) (if p c then star greedy p false s' k else None)
  end.

(** The backtracking matcher, in continuation-passing style.  The state is
    the text still to read, whether the position is the beginning of the
    string, and the text captured by group 1 if it has taken part. *)
Fixpoint run (r : regex) (A : Type) (bos : bool) (s : text)
    (cap : option text) (k : bool -> text -> option text -> option A)
    {struct r} : option A :=
  match r with
  | Eps => k bos s cap
  | Chr p =>
      match s with
      | c :: s' => if p c then k false s' cap else None
      | [] => None
      end
  | Bol => if bos then k bos s cap else None
  | Eol =>
      match s with
      | [] => k bos s cap
      | [c] => if (c =? nl)%N then k bos s cap else None
      | _ => None
      end
  | Seq r1 r2 => run r1 A bos s cap (fun b s' cap' => run r2 A b s' cap' k)
  | Alt r1 r2 => orelse (run r1 A bos s cap k) (run r2 A bos s cap k)
  | Star g p => star g p bos s (fun b s' => k b s' cap)
  | Opt p =>
      match s with
      | c :: s' =>
          if p c then orelse (k false s' cap) (k bos s cap) else k bos s cap
      | [] => k bos s cap
      end
  | Look r1 =>
      match run r1 unit bos s cap (fun _ _ _ => Some tt) with
      | Some _ => k bos s cap
      | None => None
      end
  | Group r1 =>
      run r1 A bos s cap
        (fun b s' _ => k b s' (Some (firstn (List.length s - List.length s') s)))
  end.

(** A match object: [group(1)] ([None] when the group took no part) and the
    text after [end()]. *)
Record match_obj : Type := MatchObj {
  group1 : option text;
  after : text
}.

Definition match_at (r : regex) (bos : bool) (s : text) : option match_obj :=
  run r match_obj bos s None (fun _ s' cap => Some (MatchObj cap s')).

(** [re.match(r, s)] *)
Definition re_match (r : regex) (s : text) : option match_obj :=
  match_at r true s.

(** [re.sub(r, repl, s)] for a replacement without group references: scan
    from the left, replace each match and go on after it.  [skip] counts the
    characters of the current match still to drop.  After an empty match the
    engine copies one character and goes on; CPython first retries a
    non-empty match at the same position, which differs only for a pattern
    that prefers the empty match where a longer one exists, and no pattern of
    this module matches the empty string. *)
Fixpoint sub_from (r : regex) (repl : text) (bos : bool) (s : text)
    (skip : nat) : text :=
  match s with
  | [] =>
      match skip with
      | O => match match_at r bos [] with
             | Some _ => repl
             | None => []
             end
      | S _ => []
      end
  | c :: s' =>
      match skip with
      | S n => sub_from r repl false s' n
      | O =>
          match match_at r bos s with
          | Some m =>
              match List.length s - List.length (after m) with
              | O => repl ++ c :: sub_from r repl false s' 0
              | S n => repl ++ sub_from r repl false s' n
              end
          | None => c :: sub_from r repl false s' 0
          end
      end
  end.

Definition re_sub (r : regex) (repl : text) (s : text) : text :=
  sub_from r repl true s 0.

(** *** Building patterns *)

Definition seq (rs : list regex) : regex := fold_right Seq Eps rs.

Definition is_char (p c : char) : bool := (c =? p)%N.

(** A literal without flags. *)
Definition lit (s : string) : regex :=
  seq (map (fun p => Chr (is_char p)) (py_lit s)).

Definition ascii_lower (c : char) : char :=
  if ((65 <=? c) && (c <=? 90))%N then (c + 32)%N else c.

(** [ci_eq p c]: the code point [c] matches the ASCII pattern character [p]
    under [re.IGNORECASE] in a [str] pattern.  Besides the two ASCII cases of
    a letter, the engine accepts U+0130 and U+0131 for i, U+017F for s and
    U+212A for k. *)
Definition ci_eq (p c : char) : bool :=
  ((ascii_lower c =? ascii_lower p)
   || (ascii_lower p =? 105) && ((c =? 304) || (c =? 305))
   || (ascii_lower p =? 115) && (c =? 383)
   || (ascii_lower p =? 107) && (c =? 8490))%N.

(** A literal under [re.IGNORECASE]. *)
Definition lit_i (s : string) : regex :=
  seq (map (fun p => Chr (ci_eq p)) (py_lit s)).

(** [.] under [re.DOTALL] *)
Definition any_char (c : char) : bool := true.

(** [\s*], [\s+], [.*?] *)
Definition ws_star : regex := Star true isspace.
Definition ws_plus : regex := Seq (Chr isspace) (Star true isspace).
Definition lazy_any : regex := Star false any_char.

(** ** What a call does *)

Inductive exn : Type :=
| AttributeError.

Inductive outcome (A : Type) : Type :=
| Returns (a : A)
| Raises (e : exn).
Arguments Returns {A} a.
Arguments Raises {A} e.

Definition bind {A B : Type} (x : outcome A) (f : A -> outcome B)
  : outcome B :=
  match x with
  | Returns a => f a
  | Raises e => Raises e
  end.

(** Calling [.strip()] on what [group(1)] returned: [None] has no such
    attribute. *)
Definition strip_of (g : option text) : outcome text :=
  match g with
  | Some t => Returns (strip t)
  | None => Raises AttributeError
  end.

(** ** The module *)

(** The lookahead boundaries of the five section patterns. *)
Definition until_heading_or_bold : regex :=
  Look (Alt (lit_i "\n\nh2.") (Alt (lit_i "\n\n*") Eol)).
Definition until_success_or_heading : regex :=
  Look (Alt (lit_i "\n\n*Success") (Alt (lit_i "\n\nh2.") Eol)).
Definition until_heading : regex :=
  Look (Alt (lit_i "\n\nh2.") Eol).

(** [patterns], all compiled with [re.DOTALL | re.IGNORECASE]:
<<
  \n\nh2\.\s*Acceptance\s+Criteria.*?(?=\n\nh2\.|\n\n\*|$)
  \n\n\*Acceptance\s+Criteria:\*.*?(?=\n\n\*Success|\n\nh2\.|$)
  \n\nAcceptance\s+Criteria:.*?(?=\n\n\*Success|\n\nh2\.|$)
  \n\n\*Success\s+Metrics:\*.*?(?=\n\nh2\.|$)
  \n\nh2\.\s*Success\s+Metrics.*?(?=\n\nh2\.|$)
>> *)
Definition pat_h2_acceptance : regex :=
  seq [lit_i "\n\nh2."; ws_star; lit_i "Acceptance"; ws_plus;
       lit_i "Criteria"; lazy_any; until_heading_or_bold].
Definition pat_bold_acceptance : regex :=
  seq [lit_i "\n\n*Acceptance"; ws_plus; lit_i "Criteria:*"; lazy_any;
       until_success_or_heading].
Definition pat_plain_acceptance : regex :=
  seq [lit_i "\n\nAcceptance"; ws_plus; lit_i "Criteria:"; lazy_any;
       until_success_or_heading].
Definition pat_bold_success : regex :=
  seq [lit_i "\n\n*Success"; ws_plus; lit_i "Metrics:*"; lazy_any;
       until_heading].
Definition pat_h2_success : regex :=
  seq [lit_i "\n\nh2."; ws_star; lit_i "Success"; ws_plus; lit_i "Metrics";
       lazy_any; until_heading].

Definition patterns : list regex :=
  [pat_h2_acceptance; pat_bold_acceptance; pat_plain_acceptance;
   pat_bold_success; pat_h2_success].

(** [\n\n\n+], without flags *)
Definition pat_blank_lines : regex :=
  seq [lit "\n\n"; Chr (is_char nl); Star true (is_char nl)].

(** The [for] loop over [patterns]. *)
Definition apply_patterns (ps : list regex) (description : text) : text :=
  fold_left (fun result pattern => re_sub pattern [] result) ps description.

Definition remove_acceptance_criteria (description : option text)
  : option text :=
  match description with
  | None => None
  | Some [] => Some []
  | Some d =>
      let result := apply_patterns patterns d in
      let result := re_sub pat_blank_lines (py_lit "\n\n") result in
      Some (strip result)
  end.

(** [^(\*?As\s+a\s+.*?so\s+.*?\*?)\n] with [re.IGNORECASE | re.DOTALL] *)
Definition pat_user_story : regex :=
  seq [Bol;
       Group (seq [Opt (is_char asterisk); lit_i "As"; ws_plus; lit_i "a";
                   ws_plus; lazy_any; lit_i "so"; ws_plus; lazy_any;
                   Opt (is_char asterisk)]);
       lit_i "\n"].

(** [^h2\.\s*Description] with [re.IGNORECASE] *)
Definition pat_description : regex :=
  seq [Bol; lit_i "h2."; ws_star; lit_i "Description"].

Definition format_description (description : option text)
  : outcome (option text) :=
  match description with
  | None => Returns None
  | Some [] => Returns (Some [])
  | Some d =>
      match re_match pat_user_story d with
      | Some user_story_match =>
          bind (strip_of (group1 user_story_match)) (fun user_story_line =>
          let user_story_line := strip_chars (py_lit "*") user_story_line in
          let rest := strip (after user_story_match) in
          match re_match pat_description rest with
          | Some _ =>
              Returns (Some (user_story_line ++ py_lit "\n\n" ++ rest))
          | None =>
              Returns (Some (user_story_line
                             ++ py_lit "\n\nh2. Description\n\n" ++ rest))
          end)
      | None => Returns (Some d)
      end
  end.

Definition process_description (description : option text)
  : outcome (option text) :=
  match description with
  | None => Returns None
  | Some [] => Returns (Some [])
  | Some d =>
      let cleaned := remove_acceptance_criteria (Some d) in
      let formatted := format_description cleaned in
      formatted
  end.

(** [process] on a text, for statements about texts only. *)
Definition process (t : text) : outcome (option text) :=
  process_description (Some t).

(** ** Vocabulary of the properties *)

Definition prefix_of (w s : text) : Prop := exists post, s = w ++ post.

Definition infix_of (w s : text) : Prop :=
  exists pre post, s = pre ++ w ++ post.

(** The text begins with a blank line: two line breaks. *)
Definition starts_blank (s : text) : Prop := exists t, s = nl :: nl :: t.

(** [m] spells the word [w] in some letter case. *)
Definition ci_word (w : string) (m : text) : Prop :=
  Forall2 (fun p c => ci_eq p c = true) (py_lit w) m.

(** The text contains the word [w] in some letter case. *)
Definition ci_occurs (w : string) (s : text) : Prop :=
  exists m, ci_word w m /\ infix_of m s.

Definition has_blank_line (s : text) : Prop := infix_of [nl; nl] s.

Definition has_triple_break (s : text) : Prop := infix_of [nl; nl; nl] s.

Definition spaces (m : text) : Prop :=
  m <> [] /\ Forall (fun c => isspace c = true) m.

(** What a pattern can match, whatever the order in which the engine tries:
    [lang r s c s' c'] says that [r] can read a prefix of [s] and leave [s'],
    taking the capture from [c] to [c'].  [Bol] is not constrained here. *)
Inductive lang : regex -> text -> option text -> text -> option text -> Prop :=
| L_eps s c : lang Eps s c s c
| L_chr p a s c : p a = true -> lang (Chr p) (a :: s) c s c
| L_bol s c : lang Bol s c s c
| L_eol s c : s = [] \/ s = [nl] -> lang Eol s c s c
| L_seq r1 r2 s c s1 c1 s2 c2 :
    lang r1 s c s1 c1 -> lang r2 s1 c1 s2 c2 -> lang (Seq r1 r2) s c s2 c2
| L_alt_l r1 r2 s c s' c' : lang r1 s c s' c' -> lang (Alt r1 r2) s c s' c'
| L_alt_r r1 r2 s c s' c' : lang r2 s c s' c' -> lang (Alt r1 r2) s c s' c'
| L_star g p m s c :
    Forall (fun a => p a = true) m -> lang (Star g p) (m ++ s) c s c
| L_opt_none p s c : lang (Opt p) s c s c
| L_opt_some p a s c : p a = true -> lang (Opt p) (a :: s) c s c
| L_look r s c s' c' : lang r s c s' c' -> lang (Look r) s c s c
| L_group r s c s' c' :
    lang r s c s' c' ->
    lang (Group r) s c s' (Some (firstn (List.length s - List.length s') s)).

(** Where a section match may stop: at the end of the text, before one last
    line break, or before a blank line. *)
Definition ends_ok (s : text) : Prop :=
  s = [] \/ s = [nl] \/ starts_blank s.

(** A pattern whose matches start with a blank line and stop as [ends_ok]
    says. *)
Definition section_like (r : regex) : Prop :=
  forall bos s m,
    match_at r bos s = Some m ->
    (exists x, s = nl :: nl :: x ++ after m) /\ ends_ok (after m).

(** A pattern whose matches begin with a blank line. *)
Definition blank_anchored (r : regex) : Prop :=
  forall bos s m, match_at r bos s = Some m -> starts_blank s.

(** A run of characters without a line break. *)
Definition nl_free (w : text) : Prop := ~ In nl w.

(** [kept o s]: every run of characters without a line break that shows in
    [o], at its beginning or anywhere, shows in [s] at the same place. *)
Definition kept (o s : text) : Prop :=
  (forall w, nl_free w -> prefix_of w o -> prefix_of w s)
  /\ (forall w, nl_free w -> infix_of w o -> infix_of w s).

(** The text is empty or begins with a line break. *)
Definition at_break (s : text) : Prop := s = [] \/ exists t, s = nl :: t.

(** [T] has no blank line after its first character. *)
Definition sealed (T : text) : Prop :=
  forall x y, T = x ++ y -> x <> [] -> ~ starts_blank y.

(** The state of the text between two passes: the sealed section [T] is
    still at the end, or it is gone; what stands before or instead of it
    comes from [P]. *)
Definition pending (P T t : text) : Prop :=
  (exists P', t = P' ++ T /\ kept P' P) \/ kept t P.

(** [T] can be cut nowhere inside: whatever follows it, no match of a
    section pattern stops between two of its characters. *)
Definition closed (T : text) : Prop :=
  forall x y R, T = x ++ y -> x <> [] -> y <> [] -> ~ ends_ok (y ++ R).

(** The state of the text between two passes, when the section [T] stood
    between [P] and [R]: [T] is still there, between what is left of [P]
    and what is left of [R], or it is gone and what is left comes from [P]
    and [R]. *)
Definition pending_between (P R T t : text) : Prop :=
  (exists P' R', t = P' ++ T ++ R' /\ kept P' P /\ kept R' R /\ at_break R')
  \/ kept t (P ++ R).

(** The text from its first blank line on; empty when it has none. *)
Fixpoint from_first_blank (s : text) : text :=
  match s with
  | [] => []
  | a :: s' =>
      match s' with
      | [] => []
      | b :: _ =>
          if is_char nl a && is_char nl b then s else from_first_blank s'
      end
  end.

(** Deciding, character by character under the comparison [e], whether the
    word [w] opens the text and whether it occurs in it. *)
Fixpoint prefix_b (e : char -> char -> bool) (w s : text) : bool :=
  match w, s with
  | [], _ => true
  | _ :: _, [] => false
  | p :: w', c :: s' => e p c && prefix_b e w' s'
  end.

Fixpoint infix_b (e : char -> char -> bool) (w s : text) : bool :=
  prefix_b e w s
  || match s with
     | [] => false
     | _ :: s' => infix_b e w s'
     end.

(** A paragraph of the text begins with the heading [h2. title]. *)
Definition heading_paragraph (title : string) (t : text) : Prop :=
  exists pre body,
    t = pre ++ py_lit "h2. " ++ py_lit title ++ body
    /\ (pre = [] \/ exists p, pre = p ++ [nl; nl]).

(** A paragraph of the text begins with the bold label [*title:*]. *)
Definition label_paragraph (title : string) (t : text) : Prop :=
  exists pre body,
    t = pre ++ py_lit "*" ++ py_lit title ++ py_lit ":*" ++ body
    /\ (pre = [] \/ exists p, pre = p ++ [nl; nl]).

(** The text begins with a user-story sentence [As a ... so ...], in any
    letter case, with or without an asterisk before it. *)
Definition begins_with_user_story (s : text) : Prop :=
  exists o A w1 a w2 x so w3 rest,
    s = o ++ A ++ w1 ++ a ++ w2 ++ x ++ so ++ w3 ++ rest
    /\ (o = [] \/ o = [asterisk])
    /\ ci_word "As" A /\ spaces w1 /\ ci_word "a" a /\ spaces w2
    /\ ci_word "so" so /\ spaces w3.

(** A quick test that a text cannot begin with a user-story sentence. *)
Definition opens_with_as (s : text) : bool :=
  prefix_b ci_eq (py_lit "As") s
  || match s with
     | [] => false
     | c :: s' => is_char asterisk c && prefix_b ci_eq (py_lit "As") s'
     end.

(** A word that neither [strip()] nor [strip('*')] can shorten: it is not
    empty, and its first and last characters are neither white space nor an
    asterisk. *)
Definition edge_ok (c : char) : bool :=
  negb (isspace c) && negb (is_char asterisk c).

Definition solid (w : text) : bool :=
  match w with
  | [] => false
  | a :: _ => edge_ok a && edge_ok (last w a)
  end.

(** The text begins with a Description heading: [h2.], white space or
    none, [Description], in any letter case. *)
Definition begins_with_heading (s : text) : Prop :=
  exists H w D r,
    s = H ++ w ++ D ++ r
    /\ ci_word "h2." H
    /\ Forall (fun c => isspace c = true) w
    /\ ci_word "Description" D.



(** No section pattern matches at a blank line of [X], whatever text
    follows [X]. *)
Definition no_earlier_section (X : text) : Prop :=
  forall r, In r patterns ->
  forall x t z bos,
    X = x ++ nl :: nl :: t -> match_at r bos (nl :: nl :: t ++ z) = None.

(** The pattern matches somewhere in the text. *)
Definition found (r : regex) (t : text) : Prop :=
  exists x y bos m, t = x ++ y /\ match_at r bos y = Some m.

(** * Properties *)

(** ** The matcher only finds what the pattern describes *)

Lemma orelse_some {A : Type} (x y : option A) (a : A) :
  orelse x y = Some a -> x = Some a \/ (x = None /\ y = Some a).
Proof. destruct x; simpl; intros H; [left | right]; auto. Qed.

Lemma star_sound {A : Type} (g : bool) (p : char -> bool) :
  forall (s : text) (bos : bool) (k : bool -> text -> option A) (x : A),
    star g p bos s k = Some x ->
    exists m s' b', s = m ++ s' /\ Forall (fun a => p a = true) m
                    /\ k b' s' = Some x.
Proof.
  induction s as [|c s IH]; intros bos k x H; simpl in H.
  - exists [], [], bos. auto.
  - assert (Hstop : k bos (c :: s) = Some x ->
             exists m s' b', c :: s = m ++ s'
               /\ Forall (fun a => p a = true) m /\ k b' s' = Some x).
    { intros Hk. exists [], (c :: s), bos. auto. }
    assert (Hmore : p c = true -> star g p false s k = Some x ->
             exists m s' b', c :: s = m ++ s'
               /\ Forall (fun a => p a = true) m /\ k b' s' = Some x).
    { intros Hp Hs. apply IH in Hs as (m & s' & b' & -> & Hm & Hk).
      exists (c :: m), s', b'. auto. }
    destruct g.
    + destruct (p c) eqn:Hp; [|auto].
      apply orelse_some in H as [H | [_ H]]; auto.
    + apply orelse_some in H as [H | [_ H]]; [auto|].
      destruct (p c) eqn:Hp; [auto | discriminate].
Qed.

Lemma run_sound (r : regex) :
  forall (A : Type) (bos : bool) (s : text) (cap : option text)
         (k : bool -> text -> option text -> option A) (x : A),
    run r A bos s cap k = Some x ->
    exists b' s' cap', lang r s cap s' cap' /\ k b' s' cap' = Some x.
Proof.
  induction r as [ | p | | | r1 IH1 r2 IH2 | r1 IH1 r2 IH2 | g p | p
                 | r1 IH1 | r1 IH1 ];
    intros A bos s cap k x H; simpl in H.
  - exists bos, s, cap. split; [constructor | assumption].
  - destruct s as [|c s]; [discriminate|].
    destruct (p c) eqn:Hp; [|discriminate].
    exists false, s, cap. split; [constructor; assumption | assumption].
  - destruct bos; [|discriminate].
    exists true, s, cap. split; [constructor | assumption].
  - destruct s as [|c [|c' s]].
    + exists bos, [], cap. split; [constructor; auto | assumption].
    + destruct (N.eqb_spec c nl) as [-> |]; [|discriminate].
      exists bos, [nl], cap. split; [constructor; auto | assumption].
    + discriminate.
  - apply IH1 in H as (b1 & s1 & c1 & HL1 & H).
    apply IH2 in H as (b2 & s2 & c2 & HL2 & H).
    exists b2, s2, c2. split; [econstructor; eassumption | assumption].
  - apply orelse_some in H as [H | [_ H]].
    + apply IH1 in H as (b' & s' & c' & HL & H).
      exists b', s', c'. split; [apply L_alt_l | ]; assumption.
    + apply IH2 in H as (b' & s' & c' & HL & H).
      exists b', s', c'. split; [apply L_alt_r | ]; assumption.
  - apply star_sound in H as (m & s' & b' & -> & Hm & H).
    exists b', s', cap. split; [constructor | ]; assumption.
  - destruct s as [|c s].
    + exists bos, [], cap. split; [constructor | assumption].
    + destruct (p c) eqn:Hp.
      * apply orelse_some in H as [H | [_ H]].
        -- exists false, s, cap. split; [constructor | ]; assumption.
        -- exists bos, (c :: s), cap. split; [constructor | assumption].
      * exists bos, (c :: s), cap. split; [constructor | assumption].
  - destruct (run r1 unit bos s cap (fun _ _ _ => Some tt)) eqn:E;
      [|discriminate].
    apply IH1 in E as (b' & s' & c' & HL & _).
    exists bos, s, cap. split; [econstructor; eassumption | assumption].
  - apply IH1 in H as (b' & s' & c' & HL & H).
    eexists b', s', _. split; [econstructor; eassumption | eassumption].
Qed.

Lemma match_at_sound (r : regex) (bos : bool) (s : text) (m : match_obj) :
  match_at r bos s = Some m -> lang r s None (after m) (group1 m).
Proof.
  unfold match_at. intros H.
  apply run_sound in H as (b' & s' & c' & HL & H).
  injection H as <-. exact HL.
Qed.

Lemma lang_suffix (r : regex) (s : text) (c : option text) (s' : text)
    (c' : option text) :
  lang r s c s' c' -> exists m, s = m ++ s'.
Proof.
  induction 1.
  - exists []; reflexivity.
  - exists [a]; reflexivity.
  - exists []; reflexivity.
  - exists []; reflexivity.
  - destruct IHlang1 as [m1 ->]. destruct IHlang2 as [m2 ->].
    exists (m1 ++ m2). now rewrite app_assoc.
  - assumption.
  - assumption.
  - exists m; reflexivity.
  - exists []; reflexivity.
  - exists [a]; reflexivity.
  - exists []; reflexivity.
  - assumption.
Qed.

(** ** Literals *)

Lemma ci_eq_nl (a : char) : ci_eq nl a = true -> a = nl.
Proof.
  unfold ci_eq, ascii_lower, nl. simpl.
  destruct ((65 <=? a) && (a <=? 90))%N eqn:Hup.
  - apply andb_prop in Hup as [H1 H2].
    apply N.leb_le in H1. apply N.leb_le in H2.
    rewrite !orb_false_r. intros H. apply N.eqb_eq in H. lia.
  - rewrite !orb_false_r. intros H. apply N.eqb_eq in H. exact H.
Qed.

Lemma lang_chars (f : char -> char -> bool) (l : text) :
  forall s c s' c',
    lang (seq (map (fun p => Chr (f p)) l)) s c s' c' ->
    exists m, s = m ++ s'
              /\ Forall2 (fun p a => f p a = true) l m /\ c' = c.
Proof.
  induction l as [|p l IH]; intros s c s' c' H; simpl in H.
  - inversion H; subst. exists []. auto.
  - inversion H as [ | | | | r1 r2 s0 c0 s1 c1 s2 c2 H1 H2 | | | | | | | ];
      subst.
    inversion H1; subst.
    apply IH in H2 as (m & -> & Hm & ->).
    exists (a :: m). auto.
Qed.

Lemma lang_lit_i (w : string) (s : text) (c : option text) (s' : text)
    (c' : option text) :
  lang (lit_i w) s c s' c' -> exists m, s = m ++ s' /\ ci_word w m /\ c' = c.
Proof. apply lang_chars. Qed.

Lemma lang_lit_i_blank (w : string) (w' : text) (s : text) (c : option text)
    (s' : text) (c' : option text) :
  py_lit w = nl :: nl :: w' ->
  lang (lit_i w) s c s' c' ->
  exists m, s = nl :: nl :: m ++ s'.
Proof.
  intros Hw H. apply lang_lit_i in H as (m & -> & Hm & _).
  unfold ci_word in Hm. rewrite Hw in Hm.
  inversion Hm as [|p a l l' Ha Hm']; subst.
  inversion Hm' as [|p' a' l0 l0' Ha' Hm'']; subst.
  apply ci_eq_nl in Ha. apply ci_eq_nl in Ha'. subst.
  eexists. reflexivity.
Qed.

(** ** The five section patterns

    A match of a section pattern starts with a blank line, and it stops at
    the end of the text, before a last line break, or before a blank line. *)

Lemma lang_seq_look (bd : regex) (rs : list regex) :
  forall s c s' c',
    lang (seq (rs ++ [Look bd])) s c s' c' ->
    exists c0 s1 c1, lang bd s' c0 s1 c1.
Proof.
  induction rs as [|r rs IH]; intros s c s' c' H; simpl in H.
  - inversion H as [ | | | | r1 r2 s0 c0 s1 c1 s2 c2 H1 H2 | | | | | | | ];
      subst.
    inversion H1; subst. inversion H2; subst. eauto.
  - inversion H as [ | | | | r1 r2 s0 c0 s1 c1 s2 c2 H1 H2 | | | | | | | ];
      subst.
    eapply IH; eassumption.
Qed.

Lemma section_like_intro (w : string) (w' : text) (rs : list regex)
    (bd : regex) :
  py_lit w = nl :: nl :: w' ->
  (forall s c s' c', lang bd s c s' c' -> ends_ok s) ->
  section_like (seq (lit_i w :: rs ++ [Look bd])).
Proof.
  intros Hw Hbd bos s m H. apply match_at_sound in H.
  split.
  - simpl in H.
    inversion H as [ | | | | r1 r2 s0 c0 s1 c1 s2 c2 H1 H2 | | | | | | | ];
      subst.
    eapply lang_lit_i_blank in H1 as (x & ->); [|eassumption].
    apply lang_suffix in H2 as (y & ->).
    exists (x ++ y). now rewrite app_assoc.
  - change (lit_i w :: rs ++ [Look bd]) with ((lit_i w :: rs) ++ [Look bd])
      in H.
    apply lang_seq_look in H as (c0 & s1 & c1 & H).
    eapply Hbd; eassumption.
Qed.

Lemma lang_eol (s : text) (c : option text) (s' : text) (c' : option text) :
  lang Eol s c s' c' -> ends_ok s.
Proof.
  inversion 1; subst. unfold ends_ok. tauto.
Qed.

Lemma lang_lit_i_ends (w : string) (w' : text) (s : text) (c : option text)
    (s' : text) (c' : option text) :
  py_lit w = nl :: nl :: w' -> lang (lit_i w) s c s' c' -> ends_ok s.
Proof.
  intros Hw H. eapply lang_lit_i_blank in H as (x & ->); [|eassumption].
  right; right. eexists; reflexivity.
Qed.

Ltac lit_ends :=
  match goal with
  | H : lang (lit_i ?w) _ _ _ _ |- _ =>
      exact (lang_lit_i_ends w _ _ _ _ _ eq_refl H)
  end.

Lemma until_heading_or_bold_ends (s : text) (c : option text) (s' : text)
    (c' : option text) :
  lang (Alt (lit_i "\n\nh2.") (Alt (lit_i "\n\n*") Eol)) s c s' c' ->
  ends_ok s.
Proof.
  intros H. inversion H; subst.
  - lit_ends.
  - match goal with H' : lang (Alt _ _) _ _ _ _ |- _ => inversion H'; subst end.
    + lit_ends.
    + eapply lang_eol; eassumption.
Qed.

Lemma until_success_or_heading_ends (s : text) (c : option text) (s' : text)
    (c' : option text) :
  lang (Alt (lit_i "\n\n*Success") (Alt (lit_i "\n\nh2.") Eol)) s c s' c' ->
  ends_ok s.
Proof.
  intros H. inversion H; subst.
  - lit_ends.
  - match goal with H' : lang (Alt _ _) _ _ _ _ |- _ => inversion H'; subst end.
    + lit_ends.
    + eapply lang_eol; eassumption.
Qed.

Lemma until_heading_ends (s : text) (c : option text) (s' : text)
    (c' : option text) :
  lang (Alt (lit_i "\n\nh2.") Eol) s c s' c' -> ends_ok s.
Proof.
  intros H. inversion H; subst.
  - lit_ends.
  - eapply lang_eol; eassumption.
Qed.

Lemma section_like_h2_acceptance : section_like pat_h2_acceptance.
Proof.
  apply (section_like_intro "\n\nh2." _
           [ws_star; lit_i "Acceptance"; ws_plus; lit_i "Criteria"; lazy_any]
           _ eq_refl).
  apply until_heading_or_bold_ends.
Qed.

Lemma section_like_bold_acceptance : section_like pat_bold_acceptance.
Proof.
  apply (section_like_intro "\n\n*Acceptance" _
           [ws_plus; lit_i "Criteria:*"; lazy_any] _ eq_refl).
  apply until_success_or_heading_ends.
Qed.

Lemma section_like_plain_acceptance : section_like pat_plain_acceptance.
Proof.
  apply (section_like_intro "\n\nAcceptance" _
           [ws_plus; lit_i "Criteria:"; lazy_any] _ eq_refl).
  apply until_success_or_heading_ends.
Qed.

Lemma section_like_bold_success : section_like pat_bold_success.
Proof.
  apply (section_like_intro "\n\n*Success" _
           [ws_plus; lit_i "Metrics:*"; lazy_any] _ eq_refl).
  apply until_heading_ends.
Qed.

Lemma section_like_h2_success : section_like pat_h2_success.
Proof.
  apply (section_like_intro "\n\nh2." _
           [ws_star; lit_i "Success"; ws_plus; lit_i "Metrics"; lazy_any]
           _ eq_refl).
  apply until_heading_ends.
Qed.


(** ** Unfolding [re.sub] *)

Lemma sub_from_skip (r : regex) (repl : text) :
  forall (x t : text) (b : bool),
    sub_from r repl b (x ++ t) (List.length x)
    = sub_from r repl (match x with [] => b | _ => false end) t 0.
Proof.
  induction x as [|c x IH]; intros t b.
  - reflexivity.
  - simpl. rewrite IH. destruct x; reflexivity.
Qed.

Lemma sub_from_none (r : regex) (repl : text) (b : bool) (c : char)
    (s : text) :
  match_at r b (c :: s) = None ->
  sub_from r repl b (c :: s) 0 = c :: sub_from r repl false s 0.
Proof. intros H. cbn [sub_from]. rewrite H. reflexivity. Qed.

Lemma sub_from_some (r : regex) (repl : text) (b : bool) (s : text)
    (m : match_obj) (c : char) (x : text) :
  match_at r b s = Some m ->
  s = c :: x ++ after m ->
  sub_from r repl b s 0 = repl ++ sub_from r repl false (after m) 0.
Proof.
  intros H ->. cbn [sub_from]. rewrite H.
  replace (List.length (c :: x ++ after m) - List.length (after m))
    with (S (List.length x))
    by (cbn [List.length]; rewrite length_app; lia).
  rewrite sub_from_skip. destruct x; reflexivity.
Qed.

Lemma sub_from_nil (r : regex) (repl : text) (b : bool) :
  match_at r b [] = None -> sub_from r repl b [] 0 = [].
Proof. intros H. cbn [sub_from]. rewrite H. reflexivity. Qed.

Lemma section_like_anchored (r : regex) :
  section_like r -> blank_anchored r.
Proof.
  intros Hr bos s m H. apply Hr in H as [[x ->] _]. eexists; reflexivity.
Qed.

Lemma anchored_none (r : regex) (bos : bool) (s : text) :
  blank_anchored r -> ~ starts_blank s -> match_at r bos s = None.
Proof.
  intros Hr Hs. destruct (match_at r bos s) eqn:E; [|reflexivity].
  apply Hr in E. contradiction.
Qed.

(** Where no suffix begins with a blank line, [re.sub] changes nothing. *)
Lemma sub_from_id (r : regex) (repl : text) :
  blank_anchored r ->
  forall (s : text) (b : bool),
    (forall x y, s = x ++ y -> ~ starts_blank y) ->
    sub_from r repl b s 0 = s.
Proof.
  intros Hr. induction s as [|c s IH]; intros b Hs.
  - apply sub_from_nil. apply anchored_none; [assumption|].
    intros [t Ht]. discriminate.
  - rewrite sub_from_none.
    + f_equal. apply IH. intros x y ->. apply (Hs (c :: x) y). reflexivity.
    + apply anchored_none; [assumption|]. apply (Hs [] (c :: s)). reflexivity.
Qed.

(** Where no suffix of [pre], followed by [x], begins with a blank line,
    [re.sub] copies [pre]. *)
Lemma sub_from_prefix (r : regex) (repl : text) :
  blank_anchored r ->
  forall (pre x : text) (b : bool),
    (forall a y, pre = a ++ y -> y <> [] -> ~ starts_blank (y ++ x)) ->
    sub_from r repl b (pre ++ x) 0
    = pre ++ sub_from r repl (match pre with [] => b | _ => false end) x 0.
Proof.
  intros Hr. induction pre as [|c pre IH]; intros x b Hp.
  - reflexivity.
  - simpl app. rewrite sub_from_none.
    + f_equal. rewrite IH.
      * destruct pre; reflexivity.
      * intros a y -> Hy. apply (Hp (c :: a) y); [reflexivity | assumption].
    + apply anchored_none; [assumption|].
      apply (Hp [] (c :: pre)); [reflexivity | discriminate].
Qed.

(** ** What survives a removal *)

Lemma prefix_of_nil (s : text) : prefix_of [] s.
Proof. exists s. reflexivity. Qed.

Lemma infix_of_nil (s : text) : infix_of [] s.
Proof. exists [], s. reflexivity. Qed.

Lemma prefix_infix (w s : text) : prefix_of w s -> infix_of w s.
Proof. intros [post ->]. exists [], post. reflexivity. Qed.

Lemma infix_of_app_l (w x s : text) : infix_of w s -> infix_of w (x ++ s).
Proof.
  intros (pre & post & ->). exists (x ++ pre), post. now rewrite app_assoc.
Qed.

Lemma infix_of_app_r (w x s : text) : infix_of w s -> infix_of w (s ++ x).
Proof.
  intros (pre & post & ->). exists pre, (post ++ x).
  now rewrite <- !app_assoc.
Qed.

Lemma infix_of_trans (w u s : text) :
  infix_of w u -> infix_of u s -> infix_of w s.
Proof.
  intros (p1 & q1 & ->) (p2 & q2 & ->).
  exists (p2 ++ p1), (q1 ++ q2). now rewrite <- !app_assoc.
Qed.

Lemma prefix_of_cons_inv (w : text) (c : char) (o : text) :
  prefix_of w (c :: o) -> w = [] \/ exists w', w = c :: w' /\ prefix_of w' o.
Proof.
  intros [post H]. destruct w as [|a w]; [left; reflexivity|].
  right. injection H as -> ->. exists w. split; [reflexivity|].
  exists post. reflexivity.
Qed.

Lemma infix_of_cons_inv (w : text) (c : char) (o : text) :
  infix_of w (c :: o) -> prefix_of w (c :: o) \/ infix_of w o.
Proof.
  intros (pre & post & H). destruct pre as [|a pre].
  - left. exists post. exact H.
  - right. injection H as -> ->. exists pre, post. reflexivity.
Qed.

Lemma nl_free_prefix_nl (w t : text) :
  nl_free w -> prefix_of w (nl :: t) -> w = [].
Proof.
  intros Hw [post H]. destruct w as [|a w]; [reflexivity|].
  injection H as Ha _. exfalso. apply Hw. left. symmetry. exact Ha.
Qed.

Lemma prefix_of_nil_inv (w : text) : prefix_of w [] -> w = [].
Proof.
  intros [post H]. symmetry in H. apply app_eq_nil in H as [-> _].
  reflexivity.
Qed.

Lemma infix_of_nil_inv (w : text) : infix_of w [] -> w = [].
Proof.
  intros (pre & post & H). symmetry in H.
  apply app_eq_nil in H as [_ H]. apply app_eq_nil in H as [-> _].
  reflexivity.
Qed.

Lemma ends_ok_at_break (s : text) : ends_ok s -> at_break s.
Proof.
  intros [-> | [-> | [t ->]]]; [left | right | right]; eauto.
Qed.

Lemma nl_free_prefix_at_break (w s : text) :
  nl_free w -> at_break s -> prefix_of w s -> w = [].
Proof.
  intros Hw [-> | [t ->]] H.
  - apply prefix_of_nil_inv. assumption.
  - eapply nl_free_prefix_nl; eassumption.
Qed.

Lemma kept_refl (s : text) : kept s s.
Proof. split; auto. Qed.

Lemma kept_nil (s : text) : kept [] s.
Proof.
  split; intros w _ H.
  - apply prefix_of_nil_inv in H as ->. apply prefix_of_nil.
  - apply infix_of_nil_inv in H as ->. apply infix_of_nil.
Qed.

Lemma kept_cons (c : char) (o s : text) : kept o s -> kept (c :: o) (c :: s).
Proof.
  intros [Hp Hi].
  assert (Hp' : forall w, nl_free w -> prefix_of w (c :: o) ->
                          prefix_of w (c :: s)).
  { intros w Hw H. apply prefix_of_cons_inv in H as [-> | (w' & -> & H)].
    - apply prefix_of_nil.
    - apply Hp in H as [post ->].
      + exists post. reflexivity.
      + intros Hin. apply Hw. right. assumption. }
  split; [exact Hp'|].
  intros w Hw H. apply infix_of_cons_inv in H as [H | H].
  - apply prefix_infix. auto.
  - apply (infix_of_app_l w [c] s). auto.
Qed.

(** Dropping a stretch of text that ends where the rest is at a break. *)
Lemma kept_drop (x o s : text) : kept o s -> at_break s -> kept o (x ++ s).
Proof.
  intros [Hp Hi] Hs. split; intros w Hw H.
  - apply Hp in H; [|assumption].
    rewrite (nl_free_prefix_at_break w s Hw Hs H). apply prefix_of_nil.
  - apply infix_of_app_l. auto.
Qed.

(** A line break may be kept from anywhere before the rest. *)
Lemma kept_nl (x o s : text) : kept o s -> kept (nl :: o) (x ++ s).
Proof.
  intros [Hp Hi]. split; intros w Hw H.
  - rewrite (nl_free_prefix_nl w o Hw H). apply prefix_of_nil.
  - apply infix_of_cons_inv in H as [H | H].
    + rewrite (nl_free_prefix_nl w o Hw H). apply infix_of_nil.
    + apply infix_of_app_l. auto.
Qed.

Lemma kept_trans (a b c : text) : kept a b -> kept b c -> kept a c.
Proof. intros [Hp1 Hi1] [Hp2 Hi2]. split; auto. Qed.

Lemma kept_break (o s : text) : o = [] \/ o = [nl] -> kept o s.
Proof.
  intros [-> | ->].
  - apply kept_nil.
  - apply (kept_nl [] [] s). apply kept_nil.
Qed.

(** ** One pass of a section pattern *)

Lemma sub_from_break (r : regex) (repl : text) (b : bool) (o : text) :
  blank_anchored r -> o = [] \/ o = [nl] -> sub_from r repl b o 0 = o.
Proof.
  intros Hr Ho. apply sub_from_id; [assumption|].
  intros x y Hxy [t ->].
  destruct Ho as [-> | ->].
  - destruct x; discriminate.
  - destruct x as [|a [|a' x]]; discriminate.
Qed.

(** What one pass leaves comes from the text it read. *)
Lemma sub_kept (r : regex) :
  section_like r ->
  forall (n : nat) (s : text) (b : bool),
    List.length s <= n -> kept (sub_from r [] b s 0) s.
Proof.
  intros Hr. induction n as [|n IH]; intros s b Hn.
  - destruct s; [|simpl in Hn; lia].
    rewrite sub_from_nil; [apply kept_nil|].
    apply anchored_none; [apply section_like_anchored; assumption|].
    intros [t Ht]; discriminate.
  - destruct s as [|c s].
    + rewrite sub_from_nil; [apply kept_nil|].
      apply anchored_none; [apply section_like_anchored; assumption|].
      intros [t Ht]; discriminate.
    + destruct (match_at r b (c :: s)) as [m|] eqn:E.
      * destruct (Hr _ _ _ E) as [[x Hx] Hend].
        rewrite (sub_from_some r [] b (c :: s) m nl (nl :: x) E Hx).
        rewrite Hx. simpl app.
        apply (kept_drop (nl :: nl :: x)).
        -- apply IH. simpl in Hn.
           assert (Hl : List.length (c :: s)
                        = List.length (nl :: nl :: x ++ after m))
             by (rewrite Hx; reflexivity).
           simpl in Hl. rewrite length_app in Hl. lia.
        -- apply ends_ok_at_break. assumption.
      * rewrite sub_from_none by assumption.
        apply kept_cons. apply IH. simpl in Hn. lia.
Qed.

Lemma sealed_sub_id (r : regex) (repl : text) (b : bool) (T : text) :
  blank_anchored r -> sealed T -> match_at r b T = None ->
  sub_from r repl b T 0 = T.
Proof.
  intros Hr HT Hnone. destruct T as [|c T].
  - apply sub_from_nil. assumption.
  - rewrite sub_from_none by assumption. f_equal.
    apply sub_from_id; [assumption|].
    intros x y ->. apply (HT (c :: x) y); [reflexivity | discriminate].
Qed.

Lemma sealed_after (T l t : text) :
  sealed T -> T = l ++ t -> l <> [] -> ends_ok t -> t = [] \/ t = [nl].
Proof.
  intros HT Hl Hne [-> | [-> | Hb]]; auto.
  exfalso. eapply HT; eassumption.
Qed.

(** A pass over a text that ends in the sealed section [T]: either [T] is
    still there, behind what is left of the text before it, or it is gone,
    and in both cases what is left comes from the text before [T]. *)
Lemma sub_marker (r : regex) (T : text) :
  section_like r -> sealed T ->
  forall (n : nat) (b : text) (bos : bool),
    List.length b <= n ->
    (exists b' bos', sub_from r [] bos (b ++ T) 0 = b' ++ T /\ kept b' b
                     /\ match_at r bos' T = None)
    \/ kept (sub_from r [] bos (b ++ T) 0) b.
Proof.
  intros Hr HT.
  assert (Ha : blank_anchored r) by (apply section_like_anchored; assumption).
  assert (Hbase : forall bos,
    (exists b' bos', sub_from r [] bos ([] ++ T) 0 = b' ++ T /\ kept b' []
                     /\ match_at r bos' T = None)
    \/ kept (sub_from r [] bos ([] ++ T) 0) []).
  { intros bos. simpl app. destruct (match_at r bos T) as [m|] eqn:E.
    - right. destruct (Hr _ _ _ E) as [[x Hx] Hend].
      rewrite (sub_from_some r [] bos T m nl (nl :: x) E Hx). simpl app.
      assert (Hm : after m = [] \/ after m = [nl]).
      { apply (sealed_after T (nl :: nl :: x) (after m)); auto.
        discriminate. }
      rewrite sub_from_break by assumption.
      apply kept_break. assumption.
    - left. exists [], bos. split; [|split].
      + apply sealed_sub_id; assumption.
      + apply kept_nil.
      + assumption. }
  induction n as [|n IH]; intros b bos Hn.
  - destruct b; [|simpl in Hn; lia]. apply Hbase.
  - destruct b as [|c b]; [apply Hbase|].
    destruct (match_at r bos ((c :: b) ++ T)) as [m|] eqn:E.
    + destruct (Hr _ _ _ E) as [[x Hx] Hend].
      rewrite (sub_from_some r [] bos _ m nl (nl :: x) E Hx). simpl app.
      assert (Hcase : (exists pre l, c :: b = pre ++ l /\ pre <> []
                                     /\ after m = l ++ T)
                      \/ (after m = [] \/ after m = [nl])).
      { change (nl :: nl :: x ++ after m) with ((nl :: nl :: x) ++ after m)
          in Hx.
        apply app_eq_app in Hx as [l [[H1 H2] | [H1 H2]]].
        - left. exists (nl :: nl :: x), l. split; [assumption|].
          split; [discriminate | assumption].
        - destruct l as [|a l].
          + left. exists (c :: b), []. rewrite app_nil_r.
            split; [reflexivity|]. split; [discriminate|].
            simpl in H2. symmetry. assumption.
          + right. apply (sealed_after T (a :: l) (after m)); auto.
            discriminate. }
      destruct Hcase as [(pre & l & Hb & Hpre & Hafter) | Hm].
      * rewrite Hafter. rewrite Hb.
        assert (Hl : at_break l).
        { destruct l as [|a l]; [left; reflexivity|].
          right. rewrite Hafter in Hend.
          destruct Hend as [H | [H | [t H]]]; try discriminate.
          - injection H as -> H. eauto.
          - injection H as -> H. eauto. }
        assert (Hlen : List.length l <= n).
        { assert (H : List.length (c :: b) = List.length (pre ++ l))
            by (rewrite Hb; reflexivity).
          rewrite length_app in H. simpl in H, Hn.
          destruct pre; [contradiction|]. simpl in H. lia. }
        destruct (IH l false Hlen) as [(b' & bos' & Hs & Hk & Hnone) | Hk].
        -- left. exists b', bos'. split; [assumption|].
           split; [|assumption]. apply kept_drop; assumption.
        -- right. apply kept_drop; assumption.
      * right. rewrite sub_from_break by assumption.
        apply kept_break. assumption.
    + change ((c :: b) ++ T) with (c :: b ++ T) in *.
      rewrite sub_from_none by assumption.
      simpl in Hn.
      destruct (IH b false ltac:(lia)) as [(b' & bos' & Hs & Hk & Hnone) | Hk].
      * left. exists (c :: b'), bos'. rewrite Hs.
        split; [reflexivity|]. split; [apply kept_cons|]; assumption.
      * right. apply kept_cons. assumption.
Qed.

(** ** A section whose heading follows a blank line is found *)

Lemma lazy_any_total {A : Type} (k : bool -> text -> option A) :
  (forall b, k b [] <> None) ->
  forall s b, star false any_char b s k <> None.
Proof.
  intros Hk. induction s as [|c s IH]; intros b; simpl.
  - apply Hk.
  - destruct (k b (c :: s)); simpl; [discriminate|]. apply IH.
Qed.

Lemma orelse_left {A : Type} (x y : option A) :
  x <> None -> orelse x y <> None.
Proof. destruct x; simpl; congruence. Qed.

Ltac marker_found :=
  unfold match_at; cbn;
  repeat apply orelse_left;
  apply lazy_any_total; intros ?; cbn; discriminate.

Lemma h2_acceptance_found (B : text) (bos : bool) :
  match_at pat_h2_acceptance bos (py_lit "\n\nh2. Acceptance Criteria" ++ B)
  <> None.
Proof. unfold pat_h2_acceptance. marker_found. Qed.

Lemma bold_success_found (B : text) (bos : bool) :
  match_at pat_bold_success bos (py_lit "\n\n*Success Metrics:*" ++ B)
  <> None.
Proof. unfold pat_bold_success. marker_found. Qed.

Lemma h2_success_found (B : text) (bos : bool) :
  match_at pat_h2_success bos (py_lit "\n\nh2. Success Metrics" ++ B)
  <> None.
Proof. unfold pat_h2_success. marker_found. Qed.

(** A heading after a blank line, followed by a body without blank line, is
    sealed. *)
Lemma sealed_marker (c : char) (M B : text) :
  nl_free (c :: M) -> ~ has_blank_line B ->
  sealed (nl :: nl :: c :: M ++ B).
Proof.
  intros HM HB x y Hxy Hx [t ->].
  destruct x as [|a x]; [contradiction|].
  injection Hxy as _ Hxy.
  destruct x as [|a' x].
  - simpl in Hxy. injection Hxy as Hc _. apply HM. left. assumption.
  - injection Hxy as _ Hxy.
    change (c :: M ++ B) with ((c :: M) ++ B) in Hxy.
    apply app_eq_app in Hxy as [l [[H1 H2] | [H1 H2]]].
    + destruct l as [|a1 l].
      * simpl in H2. apply HB. exists [], t. symmetry. exact H2.
      * simpl in H2. injection H2 as Ha _.
        apply HM. rewrite H1. apply in_or_app. right. left.
        symmetry. exact Ha.
    + apply HB. exists l, t. exact H2.
Qed.

(** ** All five passes *)

Lemma apply_patterns_eq (d : text) :
  apply_patterns patterns d
  = re_sub pat_h2_success []
      (re_sub pat_bold_success []
         (re_sub pat_plain_acceptance []
            (re_sub pat_bold_acceptance []
               (re_sub pat_h2_acceptance [] d)))).
Proof. reflexivity. Qed.

Lemma re_sub_kept (r : regex) (t : text) :
  section_like r -> kept (re_sub r [] t) t.
Proof. intros Hr. eapply sub_kept; [assumption | apply le_n]. Qed.

Lemma pending_start (P T : text) : pending P T (P ++ T).
Proof. left. exists P. split; [reflexivity | apply kept_refl]. Qed.

Lemma pending_step (r : regex) (P T t : text) :
  section_like r -> sealed T -> pending P T t ->
  pending P T (re_sub r [] t).
Proof.
  intros Hr HT [(P' & -> & Hk) | Hk].
  - destruct (sub_marker r T Hr HT _ P' true (le_n _))
      as [(b' & bos' & Hs & Hk' & _) | Hk'].
    + left. exists b'. split; [exact Hs|]. eapply kept_trans; eassumption.
    + right. eapply kept_trans; eassumption.
  - right. eapply kept_trans; [apply re_sub_kept; assumption | assumption].
Qed.

Lemma pending_hit (r : regex) (P T t : text) :
  section_like r -> sealed T -> (forall bos, match_at r bos T <> None) ->
  pending P T t -> kept (re_sub r [] t) P.
Proof.
  intros Hr HT Hfound [(P' & -> & Hk) | Hk].
  - destruct (sub_marker r T Hr HT _ P' true (le_n _))
      as [(b' & bos' & _ & _ & Hnone) | Hk'].
    + exfalso. apply (Hfound bos'). assumption.
    + eapply kept_trans; eassumption.
  - eapply kept_trans; [apply re_sub_kept; assumption | assumption].
Qed.

(** ** [strip] *)

Lemma lstrip_split (p : char -> bool) (s : text) :
  exists x, s = x ++ lstrip p s /\ Forall (fun c => p c = true) x.
Proof.
  induction s as [|c s (x & Hx & Hp)]; simpl.
  - exists []. auto.
  - destruct (p c) eqn:Hc.
    + exists (c :: x). split; [simpl; f_equal; assumption | auto].
    + exists []. auto.
Qed.

Lemma lstrip_head (p : char -> bool) (s : text) (c : char) (t : text) :
  lstrip p s = c :: t -> p c = false.
Proof.
  induction s as [|a s IH]; simpl; [discriminate|].
  destruct (p a) eqn:Ha; [assumption|].
  intros H. injection H as -> _. assumption.
Qed.

Lemma lstrip_keep (p : char -> bool) (c : char) (s : text) :
  p c = false -> lstrip p (c :: s) = c :: s.
Proof. intros H. simpl. rewrite H. reflexivity. Qed.

Lemma lstrip_app (p : char -> bool) (a b : text) :
  lstrip p (a ++ b)
  = match lstrip p a with [] => lstrip p b | _ => lstrip p a ++ b end.
Proof.
  induction a as [|c a IH]; simpl.
  - reflexivity.
  - destruct (p c); [assumption | reflexivity].
Qed.

Lemma rstrip_split (p : char -> bool) (s : text) :
  exists x, s = rstrip p s ++ x.
Proof.
  unfold rstrip. destruct (lstrip_split p (rev s)) as (x & Hx & _).
  exists (rev x). rewrite <- rev_app_distr, <- Hx, rev_involutive.
  reflexivity.
Qed.

Lemma rstrip_last (p : char -> bool) (s x : text) (c : char) :
  rstrip p s = x ++ [c] -> p c = false.
Proof.
  unfold rstrip. intros H.
  apply (f_equal (@rev char)) in H.
  rewrite rev_involutive, rev_app_distr in H. simpl in H.
  eapply lstrip_head. eassumption.
Qed.

(** A text that ends in a character outside the class keeps it. *)
Lemma rstrip_app_keep (p : char -> bool) (pre : text) (c : char) (x : text) :
  p c = false -> rstrip p ((pre ++ [c]) ++ x) = (pre ++ [c]) ++ rstrip p x.
Proof.
  intros Hc. unfold rstrip.
  rewrite rev_app_distr, lstrip_app.
  destruct (lstrip p (rev x)) as [|a l] eqn:E.
  - rewrite rev_app_distr. simpl. rewrite Hc. simpl.
    rewrite rev_involutive, app_nil_r. reflexivity.
  - rewrite rev_app_distr, rev_involutive. reflexivity.
Qed.

Lemma strip_with_infix (p : char -> bool) (s : text) :
  infix_of (strip_with p s) s.
Proof.
  unfold strip_with.
  destruct (lstrip_split p s) as (x & Hx & _).
  destruct (rstrip_split p (lstrip p s)) as (y & Hy).
  exists x, y. rewrite <- Hy. assumption.
Qed.

Lemma strip_with_head (p : char -> bool) (s : text) (c : char) (t : text) :
  strip_with p s = c :: t -> p c = false.
Proof.
  unfold strip_with. intros H.
  destruct (rstrip_split p (lstrip p s)) as (y & Hy).
  rewrite H in Hy. simpl in Hy.
  eapply lstrip_head. eassumption.
Qed.

Lemma strip_with_last (p : char -> bool) (s x : text) (c : char) :
  strip_with p s = x ++ [c] -> p c = false.
Proof. unfold strip_with. apply rstrip_last. Qed.

(** ** The blank-line pass *)

Lemma greedy_star_all {A : Type} (p : char -> bool) (f : text -> A) :
  forall (s : text) (b : bool),
    star true p b s (fun _ s' => Some (f s')) = Some (f (lstrip p s)).
Proof.
  induction s as [|c s IH]; intros b; simpl.
  - reflexivity.
  - destruct (p c); [|reflexivity]. rewrite IH. reflexivity.
Qed.

Lemma blank_lines_some (b : bool) (s : text) :
  match_at pat_blank_lines b (nl :: nl :: nl :: s)
  = Some (MatchObj None (lstrip (is_char nl) s)).
Proof.
  unfold match_at, pat_blank_lines. cbn.
  apply (greedy_star_all (is_char nl) (MatchObj None)).
Qed.

Lemma is_char_eq (p c : char) : is_char p c = true -> c = p.
Proof. unfold is_char. apply N.eqb_eq. Qed.

Lemma blank_lines_inv (b : bool) (s : text) (m : match_obj) :
  match_at pat_blank_lines b s = Some m ->
  exists t, s = nl :: nl :: nl :: t.
Proof.
  intros H. apply match_at_sound in H.
  unfold pat_blank_lines in H. simpl in H.
  inversion H as [ | | | | r1 r2 s0 c0 s1 c1 s2 c2 H1 H2 | | | | | | | ];
    subst.
  apply (lang_chars is_char [nl; nl]) in H1 as (x & -> & Hx & _).
  inversion Hx as [|p1 a1 l1 l1' Ha1 Hx1]; subst.
  inversion Hx1 as [|p2 a2 l2 l2' Ha2 Hx2]; subst.
  inversion Hx2; subst.
  apply is_char_eq in Ha1. apply is_char_eq in Ha2. subst.
  inversion H2 as [ | | | | r1 r2 s0 c0 s3 c3 s4 c4 H3 H4 | | | | | | | ];
    subst.
  inversion H3 as [ | p a s0 c0 Ha | | | | | | | | | | ]; subst.
  apply is_char_eq in Ha. subst. eexists. reflexivity.
Qed.

Lemma blank_lines_anchored : blank_anchored pat_blank_lines.
Proof.
  intros bos s m H. apply blank_lines_inv in H as [t ->].
  eexists. reflexivity.
Qed.

(** The pass in one step of the scan. *)
Lemma blank_lines_step (b : bool) (s : text) :
  sub_from pat_blank_lines [nl; nl] b (nl :: nl :: nl :: s) 0
  = nl :: nl :: sub_from pat_blank_lines [nl; nl] false
                  (lstrip (is_char nl) s) 0.
Proof.
  destruct (lstrip_split (is_char nl) s) as (x & Hx & _).
  rewrite (sub_from_some pat_blank_lines [nl; nl] b _ _ nl (nl :: nl :: x)
             (blank_lines_some b s)).
  - reflexivity.
  - simpl. rewrite <- Hx. reflexivity.
Qed.

Lemma blank_lines_kept :
  forall (n : nat) (s : text) (b : bool),
    List.length s <= n ->
    kept (sub_from pat_blank_lines [nl; nl] b s 0) s.
Proof.
  induction n as [|n IH]; intros s b Hn.
  - destruct s; [|simpl in Hn; lia].
    rewrite sub_from_nil; [apply kept_nil|].
    apply anchored_none; [apply blank_lines_anchored|].
    intros [t Ht]; discriminate.
  - destruct s as [|c s].
    + rewrite sub_from_nil; [apply kept_nil|].
      apply anchored_none; [apply blank_lines_anchored|].
      intros [t Ht]; discriminate.
    + destruct (match_at pat_blank_lines b (c :: s)) as [m|] eqn:E.
      * apply blank_lines_inv in E as [t Ht]. rewrite Ht.
        rewrite blank_lines_step.
        destruct (lstrip_split (is_char nl) t) as (x & Hx & _).
        assert (Hk : kept (sub_from pat_blank_lines [nl; nl] false
                             (lstrip (is_char nl) t) 0)
                          (lstrip (is_char nl) t)).
        { apply IH. injection Ht as _ Ht.
          assert (Hl : List.length s = List.length (nl :: nl :: t))
            by (rewrite Ht; reflexivity).
          assert (Hl' : List.length t
                        = List.length (x ++ lstrip (is_char nl) t))
            by (rewrite <- Hx; reflexivity).
          rewrite length_app in Hl'. simpl in Hl, Hn. lia. }
        apply (kept_nl [] _ _) in Hk. simpl in Hk.
        apply (kept_nl (nl :: nl :: nl :: x) _ _) in Hk.
        simpl in Hk. rewrite <- Hx in Hk. exact Hk.
      * rewrite sub_from_none by assumption.
        apply kept_cons. apply IH. simpl in Hn. lia.
Qed.

Lemma remove_acceptance_criteria_eq (d : text) :
  remove_acceptance_criteria (Some d)
  = Some (strip (re_sub pat_blank_lines (py_lit "\n\n")
                   (apply_patterns patterns d))).
Proof. destruct d; reflexivity. Qed.

(** ** Deciding occurrences *)

Lemma prefix_b_spec (e : char -> char -> bool) (w : text) :
  forall s,
    prefix_b e w s = true
    <-> exists m post, s = m ++ post /\ Forall2 (fun p c => e p c = true) w m.
Proof.
  induction w as [|p w IH]; intros s; simpl.
  - split; [|reflexivity]. intros _. exists [], s. auto.
  - destruct s as [|c s].
    + split; [discriminate|].
      intros (m & post & H & Hm). inversion Hm; subst. discriminate.
    + rewrite andb_true_iff, IH. split.
      * intros (He & m & post & -> & Hm). exists (c :: m), post. auto.
      * intros (m & post & H & Hm). inversion Hm; subst.
        injection H as -> ->. eauto.
Qed.

Lemma infix_b_spec (e : char -> char -> bool) (w : text) :
  forall s,
    infix_b e w s = true
    <-> exists m, Forall2 (fun p c => e p c = true) w m /\ infix_of m s.
Proof.
  induction s as [|c s IH]; simpl; rewrite orb_true_iff, prefix_b_spec.
  - split.
    + intros [(m & post & H & Hm) | H]; [|discriminate].
      exists m. split; [assumption|]. exists [], post. assumption.
    + intros (m & Hm & pre & post & H). left.
      symmetry in H. apply app_eq_nil in H as [-> H].
      exists m, post. auto.
  - rewrite IH. split.
    + intros [(m & post & H & Hm) | (m & Hm & pre & post & H)].
      * exists m. split; [assumption|]. exists [], post. assumption.
      * exists m. split; [assumption|]. exists (c :: pre), post.
        rewrite H. reflexivity.
    + intros (m & Hm & pre & post & H). destruct pre as [|a pre].
      * left. exists m, post. auto.
      * right. injection H as -> ->. exists m. split; [assumption|].
        exists pre, post. reflexivity.
Qed.

Lemma ci_occurs_spec (w : string) (s : text) :
  ci_occurs w s <-> infix_b ci_eq (py_lit w) s = true.
Proof. symmetry. apply infix_b_spec. Qed.

Lemma not_ci_occurs (w : string) (s : text) :
  infix_b ci_eq (py_lit w) s = false -> ~ ci_occurs w s.
Proof. rewrite ci_occurs_spec. intros ->. discriminate. Qed.

Lemma Forall2_is_char (w m : text) :
  Forall2 (fun p c => is_char p c = true) w m -> m = w.
Proof.
  induction 1 as [|p c w m Hc _ IH]; [reflexivity|].
  apply is_char_eq in Hc. subst. reflexivity.
Qed.

Lemma Forall2_is_char_refl (w : text) :
  Forall2 (fun p c => is_char p c = true) w w.
Proof.
  induction w; constructor; [apply N.eqb_refl | assumption].
Qed.

Lemma infix_of_spec (w s : text) :
  infix_of w s <-> infix_b is_char w s = true.
Proof.
  rewrite infix_b_spec. split.
  - intros H. exists w. split; [apply Forall2_is_char_refl | assumption].
  - intros (m & Hm & H). apply Forall2_is_char in Hm. subst. assumption.
Qed.

Lemma not_infix_of (w s : text) :
  infix_b is_char w s = false -> ~ infix_of w s.
Proof. rewrite infix_of_spec. intros ->. discriminate. Qed.

(** A word none of whose letters can stand for a line break lies on one
    line. *)
Lemma ci_word_nl_free (w : string) (m : text) :
  forallb (fun p => negb (ci_eq p nl)) (py_lit w) = true ->
  ci_word w m -> nl_free m.
Proof.
  unfold ci_word, nl_free. generalize (py_lit w). intros l Hl Hm.
  induction Hm as [|p c l m Hc _ IH]; simpl in *; [tauto|].
  apply andb_prop in Hl as [Hp Hl].
  intros [Hnl | Hin]; [subst c | exact (IH Hl Hin)].
  rewrite Hc in Hp. discriminate.
Qed.

(** ** What the stripper leaves when a section is sealed at the end *)

Lemma stripper_from (P t : text) :
  kept (apply_patterns patterns t) P ->
  forall out w,
    remove_acceptance_criteria (Some t) = Some out ->
    nl_free w -> infix_of w out -> infix_of w P.
Proof.
  intros Hk out w Hout Hw Hin.
  rewrite remove_acceptance_criteria_eq in Hout. injection Hout as <-.
  apply Hk; [assumption|].
  apply (blank_lines_kept _ _ true (le_n _)); [assumption|].
  eapply infix_of_trans; [eassumption|]. apply strip_with_infix.
Qed.

Lemma sealed_h2_acceptance (B : text) :
  ~ has_blank_line B -> sealed (py_lit "\n\nh2. Acceptance Criteria" ++ B).
Proof.
  intros HB.
  apply (sealed_marker 104%N (py_lit "2. Acceptance Criteria") B);
    [|assumption].
  intros Hin. simpl in Hin. unfold nl in Hin.
  repeat (destruct Hin as [Hin | Hin]; [discriminate|]). exact Hin.
Qed.

Lemma sealed_bold_success (B : text) :
  ~ has_blank_line B -> sealed (py_lit "\n\n*Success Metrics:*" ++ B).
Proof.
  intros HB.
  apply (sealed_marker 42%N (py_lit "Success Metrics:*") B); [|assumption].
  intros Hin. simpl in Hin. unfold nl in Hin.
  repeat (destruct Hin as [Hin | Hin]; [discriminate|]). exact Hin.
Qed.

Lemma sealed_h2_success (B : text) :
  ~ has_blank_line B -> sealed (py_lit "\n\nh2. Success Metrics" ++ B).
Proof.
  intros HB.
  apply (sealed_marker 104%N (py_lit "2. Success Metrics") B); [|assumption].
  intros Hin. simpl in Hin. unfold nl in Hin.
  repeat (destruct Hin as [Hin | Hin]; [discriminate|]). exact Hin.
Qed.

Lemma kept_h2_acceptance (P B : text) :
  ~ has_blank_line B ->
  kept (apply_patterns patterns
          (P ++ py_lit "\n\nh2. Acceptance Criteria" ++ B)) P.
Proof.
  intros HB. rewrite apply_patterns_eq.
  eapply kept_trans; [apply re_sub_kept, section_like_h2_success|].
  eapply kept_trans; [apply re_sub_kept, section_like_bold_success|].
  eapply kept_trans; [apply re_sub_kept, section_like_plain_acceptance|].
  eapply kept_trans; [apply re_sub_kept, section_like_bold_acceptance|].
  apply (pending_hit pat_h2_acceptance P
           (py_lit "\n\nh2. Acceptance Criteria" ++ B)).
  - apply section_like_h2_acceptance.
  - apply sealed_h2_acceptance. assumption.
  - intros bos. apply h2_acceptance_found.
  - apply pending_start.
Qed.

Lemma kept_bold_success (P B : text) :
  ~ has_blank_line B ->
  kept (apply_patterns patterns
          (P ++ py_lit "\n\n*Success Metrics:*" ++ B)) P.
Proof.
  intros HB. rewrite apply_patterns_eq.
  pose proof (sealed_bold_success B HB) as HT.
  eapply kept_trans; [apply re_sub_kept, section_like_h2_success|].
  apply (pending_hit pat_bold_success P
           (py_lit "\n\n*Success Metrics:*" ++ B)).
  - apply section_like_bold_success.
  - assumption.
  - intros bos. apply bold_success_found.
  - apply pending_step;
      [apply section_like_plain_acceptance | assumption |].
    apply pending_step;
      [apply section_like_bold_acceptance | assumption |].
    apply pending_step;
      [apply section_like_h2_acceptance | assumption |].
    apply pending_start.
Qed.

Lemma kept_h2_success (P B : text) :
  ~ has_blank_line B ->
  kept (apply_patterns patterns
          (P ++ py_lit "\n\nh2. Success Metrics" ++ B)) P.
Proof.
  intros HB. rewrite apply_patterns_eq.
  pose proof (sealed_h2_success B HB) as HT.
  apply (pending_hit pat_h2_success P
           (py_lit "\n\nh2. Success Metrics" ++ B)).
  - apply section_like_h2_success.
  - assumption.
  - intros bos. apply h2_success_found.
  - apply pending_step;
      [apply section_like_bold_success | assumption |].
    apply pending_step;
      [apply section_like_plain_acceptance | assumption |].
    apply pending_step;
      [apply section_like_bold_acceptance | assumption |].
    apply pending_step;
      [apply section_like_h2_acceptance | assumption |].
    apply pending_start.
Qed.

(** ** A section followed by further text

    The section [T], a marker and the lines of its paragraph, now stands
    between the text [P] before it and the text [R] that begins at the next
    blank line. *)

Lemma kept_at_break (o s : text) : kept o s -> at_break s -> at_break o.
Proof.
  intros [Hp _] Hs. destruct o as [|c o]; [left; reflexivity|].
  right. destruct (N.eq_dec c nl) as [-> | Hc]; [eauto|].
  exfalso.
  assert (Hw : nl_free [c]) by (intros [H | []]; auto).
  assert (H : [c] = [])
    by (apply (nl_free_prefix_at_break [c] s Hw Hs), Hp;
        [assumption | exists o; reflexivity]).
  discriminate.
Qed.

Lemma nl_free_prefix_break (w a b : text) :
  nl_free w -> at_break b -> prefix_of w (a ++ b) -> prefix_of w a.
Proof.
  revert w. induction a as [|c a IH]; intros w Hw Hb H.
  - simpl in H. rewrite (nl_free_prefix_at_break w b Hw Hb H).
    apply prefix_of_nil.
  - simpl in H. apply prefix_of_cons_inv in H as [-> | (w1 & -> & H)].
    + apply prefix_of_nil.
    + apply IH in H as [post ->]; [|intros Hin; apply Hw; right; assumption
                                   |assumption].
      exists post. reflexivity.
Qed.

Lemma nl_free_infix_break (w a b : text) :
  nl_free w -> at_break b -> infix_of w (a ++ b) ->
  infix_of w a \/ infix_of w b.
Proof.
  intros Hw Hb. induction a as [|c a IH]; intros H; simpl in H.
  - right. assumption.
  - apply infix_of_cons_inv in H as [H | H].
    + left. apply prefix_infix.
      apply (nl_free_prefix_break w (c :: a) b Hw Hb H).
    + destruct (IH H) as [H' | H']; [left | right; assumption].
      apply (infix_of_app_l w [c] a). assumption.
Qed.

Lemma kept_app (a P b R : text) :
  kept a P -> kept b R -> at_break b -> kept (a ++ b) (P ++ R).
Proof.
  intros [Hp1 Hi1] [Hp2 Hi2] Hb. split; intros w Hw H.
  - apply nl_free_prefix_break in H; try assumption.
    destruct (Hp1 w Hw H) as [post ->].
    exists (post ++ R). rewrite app_assoc. reflexivity.
  - apply nl_free_infix_break in H as [H | H]; try assumption.
    + apply infix_of_app_r. apply Hi1; assumption.
    + apply infix_of_app_l. apply Hi2; assumption.
Qed.

Lemma closed_of_sealed (T : text) :
  sealed T -> (forall z, T <> z ++ [nl]) -> closed T.
Proof.
  intros HT Hlast x y R HTxy Hx Hy [H | [H | [t H]]].
  - destruct y; [contradiction | discriminate].
  - destruct y as [|c [|c' y]]; [contradiction| |discriminate].
    injection H as -> _. exact (Hlast x HTxy).
  - destruct y as [|c [|c' y]]; [contradiction| |].
    + injection H as -> _. exact (Hlast x HTxy).
    + injection H as -> -> _.
      apply (HT x (nl :: nl :: y) HTxy Hx). exists y. reflexivity.
Qed.

(** Where a suffix of [b ++ T ++ R] begins: in [b], inside [T], or in
    [R]. *)
Lemma suffix_cases (b T R pre suf : text) :
  b ++ T ++ R = pre ++ suf ->
  (exists l, b = pre ++ l /\ suf = l ++ T ++ R)
  \/ (exists x y, T = x ++ y /\ x <> [] /\ y <> [] /\ suf = y ++ R)
  \/ (exists l, R = l ++ suf).
Proof.
  intros H. apply app_eq_app in H as [l [[H1 H2] | [H1 H2]]].
  - left. exists l. split; assumption.
  - apply app_eq_app in H2 as [l' [[H3 H4] | [H3 H4]]].
    + destruct l as [|c l].
      * left. exists []. rewrite app_nil_r in *. subst.
        split; reflexivity.
      * destruct l' as [|c' l'].
        -- right; right. exists []. subst. reflexivity.
        -- right; left. exists (c :: l), (c' :: l').
           split; [assumption|]. split; [discriminate|].
           split; [discriminate | assumption].
    + right; right. exists l'. assumption.
Qed.

(** A pass over a text in which the section [T] stands before [R]: either
    [T] is still there, between what is left of the text before it and what
    is left of [R], or it is gone, and what is left comes from the text
    before [T] and from [R]. *)
Lemma sub_section (r : regex) (T R : text) :
  section_like r -> closed T -> T <> [] -> at_break R ->
  forall (n : nat) (b : text) (bos : bool),
    List.length b <= n ->
    (exists b' bos',
        sub_from r [] bos (b ++ T ++ R) 0
        = b' ++ T ++ sub_from r [] false R 0
        /\ kept b' b /\ match_at r bos' (T ++ R) = None)
    \/ kept (sub_from r [] bos (b ++ T ++ R) 0) (b ++ R).
Proof.
  intros Hr HT Hne HR.
  assert (Ha : blank_anchored r) by (apply section_like_anchored; assumption).
  assert (Hgone : forall b bos m l x,
    match_at r bos (b ++ T ++ R) = Some m ->
    b ++ T ++ R = nl :: nl :: x ++ after m ->
    ends_ok (after m) ->
    R = l ++ after m ->
    kept (sub_from r [] bos (b ++ T ++ R) 0) (b ++ R)).
  { intros b bos m l x E Hx Hend HRl.
    rewrite (sub_from_some r [] bos _ m nl (nl :: x) E Hx). simpl app.
    rewrite HRl, app_assoc.
    apply kept_drop; [|apply ends_ok_at_break; assumption].
    apply (sub_kept r Hr _ _ false (le_n _)). }
  assert (Hbase : forall bos,
    (exists b' bos',
        sub_from r [] bos ([] ++ T ++ R) 0
        = b' ++ T ++ sub_from r [] false R 0
        /\ kept b' [] /\ match_at r bos' (T ++ R) = None)
    \/ kept (sub_from r [] bos ([] ++ T ++ R) 0) ([] ++ R)).
  { intros bos. destruct (match_at r bos ([] ++ T ++ R)) as [m|] eqn:E.
    - right. destruct (Hr _ _ _ E) as [[x Hx] Hend].
      destruct (suffix_cases [] T R (nl :: nl :: x) (after m) Hx)
        as [(l & Hl & _) | [(x0 & y0 & HTxy & Hx0 & Hy0 & Hm) | (l & Hl)]].
      + discriminate.
      + exfalso. rewrite Hm in Hend.
        exact (HT x0 y0 R HTxy Hx0 Hy0 Hend).
      + exact (Hgone [] bos m l x E Hx Hend Hl).
    - left. exists [], bos. simpl app in *.
      split; [|split; [apply kept_nil | assumption]].
      destruct T as [|c T']; [contradiction|].
      simpl app. rewrite sub_from_none by assumption. f_equal.
      rewrite sub_from_prefix; [destruct T'; reflexivity | assumption |].
      intros a y HTy Hy Hblank.
      apply (HT (c :: a) y R); [rewrite HTy; reflexivity | discriminate
                               | assumption |].
      right; right. assumption. }
  induction n as [|n IH]; intros b bos Hn.
  - destruct b; [|simpl in Hn; lia]. apply Hbase.
  - destruct b as [|c b]; [apply Hbase|].
    destruct (match_at r bos ((c :: b) ++ T ++ R)) as [m|] eqn:E.
    + destruct (Hr _ _ _ E) as [[x Hx] Hend].
      destruct (suffix_cases (c :: b) T R (nl :: nl :: x) (after m) Hx)
        as [(l & Hl & Hm) | [(x0 & y0 & HTxy & Hx0 & Hy0 & Hm) | (l & Hl)]].
      * rewrite (sub_from_some r [] bos _ m nl (nl :: x) E Hx). simpl app.
        rewrite Hm, Hl.
        assert (Hbreak : at_break l).
        { destruct l as [|a l]; [left; reflexivity|].
          apply ends_ok_at_break in Hend. rewrite Hm in Hend.
          destruct Hend as [H | [t H]]; [discriminate|].
          injection H as -> _. right. eauto. }
        assert (Hlen : List.length l <= n).
        { assert (H : List.length (c :: b)
                      = List.length ((nl :: nl :: x) ++ l))
            by (rewrite Hl; reflexivity).
          rewrite length_app in H. simpl in H, Hn. lia. }
        destruct (IH l false Hlen) as [(b' & bos' & Hs & Hk & Hnone) | Hk].
        -- left. exists b', bos'. split; [assumption|].
           split; [|assumption]. apply kept_drop; assumption.
        -- right. change (c :: b ++ R) with ((c :: b) ++ R).
           rewrite Hl, <- app_assoc. apply kept_drop; [assumption|].
           destruct Hbreak as [-> | [t ->]]; [assumption|].
           right. eexists. reflexivity.
      * exfalso. rewrite Hm in Hend.
        exact (HT x0 y0 R HTxy Hx0 Hy0 Hend).
      * right. exact (Hgone (c :: b) bos m l x E Hx Hend Hl).
    + change ((c :: b) ++ T ++ R) with (c :: b ++ T ++ R) in *.
      rewrite sub_from_none by assumption.
      simpl in Hn.
      destruct (IH b false ltac:(lia)) as [(b' & bos' & Hs & Hk & Hnone) | Hk].
      * left. exists (c :: b'), bos'. rewrite Hs.
        split; [reflexivity|]. split; [apply kept_cons|]; assumption.
      * right. apply kept_cons. assumption.
Qed.

Lemma pending_between_start (P R T : text) :
  at_break R -> pending_between P R T (P ++ T ++ R).
Proof.
  intros HR. left. exists P, R.
  split; [reflexivity|]. split; [apply kept_refl|].
  split; [apply kept_refl | assumption].
Qed.

Lemma pending_between_step (r : regex) (P R T t : text) :
  section_like r -> closed T -> T <> [] -> pending_between P R T t ->
  pending_between P R T (re_sub r [] t).
Proof.
  intros Hr HT Hne [(P' & R' & -> & HkP & HkR & HR) | Hk].
  - destruct (sub_section r T R' Hr HT Hne HR _ P' true (le_n _))
      as [(b' & bos' & Hs & Hk' & _) | Hk'].
    + left. exists b', (sub_from r [] false R' 0).
      split; [exact Hs|].
      split; [eapply kept_trans; eassumption|].
      assert (Hsub : kept (sub_from r [] false R' 0) R')
        by (apply (sub_kept r Hr _ _ false (le_n _))).
      split; [eapply kept_trans; eassumption|].
      eapply kept_at_break; eassumption.
    + right. eapply kept_trans; [exact Hk'|].
      apply kept_app; assumption.
  - right. eapply kept_trans; [apply re_sub_kept; assumption | assumption].
Qed.

Lemma pending_between_hit (r : regex) (P R T t : text) :
  section_like r -> closed T -> T <> [] ->
  (forall bos X, match_at r bos (T ++ X) <> None) ->
  pending_between P R T t -> kept (re_sub r [] t) (P ++ R).
Proof.
  intros Hr HT Hne Hfound [(P' & R' & -> & HkP & HkR & HR) | Hk].
  - destruct (sub_section r T R' Hr HT Hne HR _ P' true (le_n _))
      as [(b' & bos' & _ & _ & Hnone) | Hk'].
    + exfalso. apply (Hfound bos' R'). assumption.
    + eapply kept_trans; [exact Hk'|]. apply kept_app; assumption.
  - eapply kept_trans; [apply re_sub_kept; assumption | assumption].
Qed.

(** A text is the lines of its first paragraph followed by the text from
    its first blank line on. *)
Lemma paragraph_split (S : text) :
  exists B,
    S = B ++ from_first_blank S
    /\ ~ has_blank_line B
    /\ (from_first_blank S = []
        \/ (starts_blank (from_first_blank S)
            /\ forall z, B <> z ++ [nl])).
Proof.
  induction S as [|a S IH].
  - exists []. split; [reflexivity|]. split; [|left; reflexivity].
    intros H. apply infix_of_nil_inv in H. discriminate.
  - destruct S as [|b S].
    + exists [a]. split; [reflexivity|]. split; [|left; reflexivity].
      intros (x & y & H). destruct x as [|c [|c' x]]; discriminate.
    + cbn [from_first_blank].
      destruct (is_char nl a && is_char nl b) eqn:E.
      * apply andb_prop in E as [Ea Eb].
        apply is_char_eq in Ea. apply is_char_eq in Eb. subst.
        exists []. split; [reflexivity|]. split.
        -- intros H. apply infix_of_nil_inv in H. discriminate.
        -- right. split; [exists S; reflexivity|].
           intros z Hz. destruct z; discriminate.
      * destruct IH as (B & HS & HB & Hrest).
        exists (a :: B). split; [simpl; f_equal; exact HS|].
        assert (Hab : ~ (a = nl /\ b = nl)).
        { intros [-> ->]. discriminate. }
        split.
        -- intros H. apply infix_of_cons_inv in H as [[post H] | H];
             [|contradiction].
           injection H as -> H. apply Hab. split; [reflexivity|].
           rewrite H in HS. injection HS as ->. reflexivity.
        -- destruct Hrest as [Hnil | [Hblank Hlast]]; [left; assumption|].
           right. split; [assumption|].
           intros z Hz. destruct z as [|c z].
           ++ injection Hz as -> ->. apply Hab. split; [reflexivity|].
              destruct Hblank as [t Ht]. rewrite Ht in HS.
              injection HS as ->. reflexivity.
           ++ injection Hz as _ Hz. exact (Hlast z Hz).
Qed.

Lemma marker_section_closed (M B : text) :
  sealed (M ++ B) -> M <> [] -> nl_free [last M nl] ->
  (forall z, B <> z ++ [nl]) -> closed (M ++ B).
Proof.
  intros HT HM Hlast HB. apply closed_of_sealed; [assumption|].
  intros z Hz.
  destruct (exists_last HM) as (M' & c & HM').
  destruct B as [|b B].
  - rewrite app_nil_r in Hz. rewrite Hz in Hlast.
    rewrite last_last in Hlast. apply Hlast. left. reflexivity.
  - assert (Hne : b :: B <> []) by discriminate.
    destruct (exists_last Hne) as (B' & c' & HB').
    rewrite HB', app_assoc in Hz.
    apply app_inj_tail in Hz as [_ ->].
    exact (HB B' HB').
Qed.

Lemma kept_h2_acceptance_between (P B R : text) :
  ~ has_blank_line B -> (forall z, B <> z ++ [nl]) -> at_break R ->
  kept (apply_patterns patterns
          (P ++ py_lit "\n\nh2. Acceptance Criteria" ++ B ++ R)) (P ++ R).
Proof.
  intros HB Hlast HR. rewrite apply_patterns_eq.
  assert (HT : closed (py_lit "\n\nh2. Acceptance Criteria" ++ B)).
  { apply marker_section_closed; try assumption.
    - apply sealed_h2_acceptance. assumption.
    - discriminate.
    - intros [H | []]. discriminate. }
  assert (Hne : py_lit "\n\nh2. Acceptance Criteria" ++ B <> [])
    by discriminate.
  eapply kept_trans; [apply re_sub_kept, section_like_h2_success|].
  eapply kept_trans; [apply re_sub_kept, section_like_bold_success|].
  eapply kept_trans; [apply re_sub_kept, section_like_plain_acceptance|].
  eapply kept_trans; [apply re_sub_kept, section_like_bold_acceptance|].
  rewrite (app_assoc (py_lit "\n\nh2. Acceptance Criteria") B R).
  apply (pending_between_hit pat_h2_acceptance P R
           (py_lit "\n\nh2. Acceptance Criteria" ++ B)).
  - apply section_like_h2_acceptance.
  - assumption.
  - assumption.
  - intros bos X. rewrite <- app_assoc. apply h2_acceptance_found.
  - apply pending_between_start. assumption.
Qed.

Lemma kept_bold_success_between (P B R : text) :
  ~ has_blank_line B -> (forall z, B <> z ++ [nl]) -> at_break R ->
  kept (apply_patterns patterns
          (P ++ py_lit "\n\n*Success Metrics:*" ++ B ++ R)) (P ++ R).
Proof.
  intros HB Hlast HR. rewrite apply_patterns_eq.
  assert (HT : closed (py_lit "\n\n*Success Metrics:*" ++ B)).
  { apply marker_section_closed; try assumption.
    - apply sealed_bold_success. assumption.
    - discriminate.
    - intros [H | []]. discriminate. }
  assert (Hne : py_lit "\n\n*Success Metrics:*" ++ B <> [])
    by discriminate.
  eapply kept_trans; [apply re_sub_kept, section_like_h2_success|].
  rewrite (app_assoc (py_lit "\n\n*Success Metrics:*") B R).
  apply (pending_between_hit pat_bold_success P R
           (py_lit "\n\n*Success Metrics:*" ++ B)).
  - apply section_like_bold_success.
  - assumption.
  - assumption.
  - intros bos X. rewrite <- app_assoc. apply bold_success_found.
  - apply pending_between_step;
      [apply section_like_plain_acceptance | assumption | assumption |].
    apply pending_between_step;
      [apply section_like_bold_acceptance | assumption | assumption |].
    apply pending_between_step;
      [apply section_like_h2_acceptance | assumption | assumption |].
    apply pending_between_start. assumption.
Qed.

Lemma kept_h2_success_between (P B R : text) :
  ~ has_blank_line B -> (forall z, B <> z ++ [nl]) -> at_break R ->
  kept (apply_patterns patterns
          (P ++ py_lit "\n\nh2. Success Metrics" ++ B ++ R)) (P ++ R).
Proof.
  intros HB Hlast HR. rewrite apply_patterns_eq.
  assert (HT : closed (py_lit "\n\nh2. Success Metrics" ++ B)).
  { apply marker_section_closed; try assumption.
    - apply sealed_h2_success. assumption.
    - discriminate.
    - intros [H | []]. discriminate. }
  assert (Hne : py_lit "\n\nh2. Success Metrics" ++ B <> [])
    by discriminate.
  rewrite (app_assoc (py_lit "\n\nh2. Success Metrics") B R).
  apply (pending_between_hit pat_h2_success P R
           (py_lit "\n\nh2. Success Metrics" ++ B)).
  - apply section_like_h2_success.
  - assumption.
  - assumption.
  - intros bos X. rewrite <- app_assoc. apply h2_success_found.
  - apply pending_between_step;
      [apply section_like_bold_success | assumption | assumption |].
    apply pending_between_step;
      [apply section_like_plain_acceptance | assumption | assumption |].
    apply pending_between_step;
      [apply section_like_bold_acceptance | assumption | assumption |].
    apply pending_between_step;
      [apply section_like_h2_acceptance | assumption | assumption |].
    apply pending_between_start. assumption.
Qed.

(** The words of the stripper's output, when the section stood between [P]
    and the text [S] after its marker: they come from [P] or from the part
    of [S] that begins at its first blank line. *)
Lemma stripper_between (P M S t : text) :
  t = P ++ M ++ S ->
  (forall B, ~ has_blank_line B ->
             kept (apply_patterns patterns (P ++ M ++ B)) P) ->
  (forall B R, ~ has_blank_line B -> (forall z, B <> z ++ [nl]) ->
               at_break R ->
               kept (apply_patterns patterns (P ++ M ++ B ++ R)) (P ++ R)) ->
  forall out w,
    remove_acceptance_criteria (Some t) = Some out ->
    nl_free w -> infix_of w out ->
    infix_of w P \/ infix_of w (from_first_blank S).
Proof.
  intros -> Hend Hmid out w Hout Hw Hin.
  destruct (paragraph_split S) as (B & HS & HB & [Hnil | [Hblank Hlast]]).
  - left. rewrite Hnil, app_nil_r in HS. subst S.
    exact (stripper_from P _ (Hend B HB) out w Hout Hw Hin).
  - assert (HR : at_break (from_first_blank S)).
    { destruct Hblank as [x ->]. right. eexists. reflexivity. }
    apply (nl_free_infix_break w P _ Hw HR).
    rewrite HS in Hout.
    exact (stripper_from (P ++ from_first_blank S) _
             (Hmid B _ HB Hlast HR) out w Hout Hw Hin).
Qed.

(** ** Acceptance-criteria removal *)

(** C2, as stated, fails: a heading paragraph [h2. Acceptance Criteria]
    followed by bullet lines does not guarantee that the stripper's output is
    free of the words.  When the heading opens the text nothing is removed,
    and words outside the section stay, before it or in a paragraph that
    follows it. *)
Lemma acceptance_criteria_removal_counterexample :
  let t1 := py_lit "h2. Acceptance Criteria\n* Item 1\n* Item 2" in
  let t2 := py_lit "See the acceptance criteria below.\n\nh2. Acceptance Criteria\n* Item 1" in
  let t3 := py_lit "Intro\n\nh2. Acceptance Criteria\n* Item 1\n\nh2. Notes\nThe acceptance criteria were agreed." in
  (heading_paragraph "Acceptance Criteria" t1
   /\ remove_acceptance_criteria (Some t1) = Some t1
   /\ ci_occurs "Acceptance Criteria" t1)
  /\ (heading_paragraph "Acceptance Criteria" t2
      /\ remove_acceptance_criteria (Some t2)
         = Some (py_lit "See the acceptance criteria below.")
      /\ ci_occurs "Acceptance Criteria"
           (py_lit "See the acceptance criteria below."))
  /\ (heading_paragraph "Acceptance Criteria" t3
      /\ remove_acceptance_criteria (Some t3)
         = Some (py_lit "Intro\n\nh2. Notes\nThe acceptance criteria were agreed.")
      /\ ci_occurs "Acceptance Criteria"
           (py_lit "Intro\n\nh2. Notes\nThe acceptance criteria were agreed.")).
Proof.
  cbv zeta. split; [|split]; split.
  - exists [], (py_lit "\n* Item 1\n* Item 2"). split; [reflexivity | auto].
  - split; [vm_compute; reflexivity|].
    apply ci_occurs_spec. vm_compute. reflexivity.
  - exists (py_lit "See the acceptance criteria below.\n\n"),
      (py_lit "\n* Item 1").
    split; [reflexivity|]. right.
    exists (py_lit "See the acceptance criteria below."). reflexivity.
  - split; [vm_compute; reflexivity|].
    apply ci_occurs_spec. vm_compute. reflexivity.
  - exists (py_lit "Intro\n\n"),
      (py_lit "\n* Item 1\n\nh2. Notes\nThe acceptance criteria were agreed.").
    split; [reflexivity|]. right.
    exists (py_lit "Intro"). reflexivity.
  - split; [vm_compute; reflexivity|].
    apply ci_occurs_spec. vm_compute. reflexivity.
Qed.

(** C2, amended: let the heading [h2. Acceptance Criteria] follow a blank
    line, [P] being the text before that blank line and [S] the text after
    the heading: the lines of the section's paragraph and whatever comes
    after them.  When the words "Acceptance Criteria" occur, in any letter
    case, neither in [P] nor in the part of [S] that begins at its first
    blank line, the output of [remove_acceptance_criteria] contains no
    occurrence of them in any letter case.  The lines of the paragraph
    itself may contain the words, and other paragraphs and sections may
    follow. *)
Theorem acceptance_criteria_removal (P S : text) :
  ~ ci_occurs "Acceptance Criteria" P ->
  ~ ci_occurs "Acceptance Criteria" (from_first_blank S) ->
  exists out,
    remove_acceptance_criteria
      (Some (P ++ py_lit "\n\nh2. Acceptance Criteria" ++ S)) = Some out
    /\ ~ ci_occurs "Acceptance Criteria" out.
Proof.
  intros HP HR. eexists. split; [apply remove_acceptance_criteria_eq|].
  intros (m & Hm & Hin).
  assert (Hw : nl_free m)
    by (eapply ci_word_nl_free; [|eassumption]; reflexivity).
  destruct (stripper_between P (py_lit "\n\nh2. Acceptance Criteria") S _
              eq_refl (kept_h2_acceptance P) (kept_h2_acceptance_between P)
              _ m (remove_acceptance_criteria_eq _) Hw Hin) as [H | H].
  - apply HP. exists m. split; assumption.
  - apply HR. exists m. split; assumption.
Qed.

Lemma acceptance_criteria_removal_witness :
  let P := py_lit "As a developer, I want X so Y\n\nh2. Description\n\nSome description here." in
  let S := py_lit "\n* Item 1\n* Acceptance criteria item 2\n\nh2. Notes\nkeep" in
  ~ ci_occurs "Acceptance Criteria" P
  /\ ~ ci_occurs "Acceptance Criteria" (from_first_blank S)
  /\ exists out,
       remove_acceptance_criteria
         (Some (P ++ py_lit "\n\nh2. Acceptance Criteria" ++ S)) = Some out
       /\ ~ ci_occurs "Acceptance Criteria" out.
Proof.
  cbv zeta.
  assert (HP : ~ ci_occurs "Acceptance Criteria"
                 (py_lit "As a developer, I want X so Y\n\nh2. Description\n\nSome description here."))
    by (apply not_ci_occurs; vm_compute; reflexivity).
  assert (HR : ~ ci_occurs "Acceptance Criteria"
                 (from_first_blank
                    (py_lit "\n* Item 1\n* Acceptance criteria item 2\n\nh2. Notes\nkeep")))
    by (apply not_ci_occurs; vm_compute; reflexivity).
  split; [exact HP|]. split; [exact HR|].
  exact (acceptance_criteria_removal _ _ HP HR).
Defined.

(** ** Success-metrics removal *)

(** C3, as stated, fails in the same ways, for the heading and for the
    bold label, with or without an acceptance-criteria section. *)
Lemma success_metrics_removal_counterexample :
  let t1 := py_lit "*Success Metrics:*\n* Metric 1" in
  let t2 := py_lit "Success metrics are below.\n\n*Acceptance Criteria:*\n* Item 1\n\nh2. Success Metrics\n* Metric 1" in
  let t3 := py_lit "Intro\n\n*Success Metrics:*\n* Metric 1\n\nh2. Notes\nThe success metrics were met." in
  (label_paragraph "Success Metrics" t1
   /\ remove_acceptance_criteria (Some t1) = Some t1
   /\ ci_occurs "Success Metrics" t1)
  /\ (heading_paragraph "Success Metrics" t2
      /\ remove_acceptance_criteria (Some t2)
         = Some (py_lit "Success metrics are below.")
      /\ ci_occurs "Success Metrics" (py_lit "Success metrics are below."))
  /\ (label_paragraph "Success Metrics" t3
      /\ remove_acceptance_criteria (Some t3)
         = Some (py_lit "Intro\n\nh2. Notes\nThe success metrics were met.")
      /\ ci_occurs "Success Metrics"
           (py_lit "Intro\n\nh2. Notes\nThe success metrics were met.")).
Proof.
  cbv zeta. split; [|split]; split.
  - exists [], (py_lit "\n* Metric 1"). split; [reflexivity | auto].
  - split; [vm_compute; reflexivity|].
    apply ci_occurs_spec. vm_compute. reflexivity.
  - exists (py_lit "Success metrics are below.\n\n*Acceptance Criteria:*\n* Item 1\n\n"),
      (py_lit "\n* Metric 1").
    split; [reflexivity|]. right.
    exists (py_lit "Success metrics are below.\n\n*Acceptance Criteria:*\n* Item 1").
    reflexivity.
  - split; [vm_compute; reflexivity|].
    apply ci_occurs_spec. vm_compute. reflexivity.
  - exists (py_lit "Intro\n\n"),
      (py_lit "\n* Metric 1\n\nh2. Notes\nThe success metrics were met.").
    split; [reflexivity|]. right.
    exists (py_lit "Intro"). reflexivity.
  - split; [vm_compute; reflexivity|].
    apply ci_occurs_spec. vm_compute. reflexivity.
Qed.

(** C3, amended: let a "Success Metrics" section, opened by the heading
    [h2. Success Metrics] or by the bold label [*Success Metrics:*], follow
    a blank line, [P] being the text before that blank line and [S] the
    text after the marker: the lines of the section's paragraph and
    whatever comes after them.  When the words "Success Metrics" occur, in
    any letter case, neither in [P] nor in the part of [S] that begins at
    its first blank line, the output of [remove_acceptance_criteria]
    contains no occurrence of them in any letter case, whatever else [P]
    and [S] hold: acceptance-criteria sections of any form, before the
    section or after it, or none. *)
Theorem success_metrics_removal (P M S : text) :
  M = py_lit "\n\nh2. Success Metrics"
  \/ M = py_lit "\n\n*Success Metrics:*" ->
  ~ ci_occurs "Success Metrics" P ->
  ~ ci_occurs "Success Metrics" (from_first_blank S) ->
  exists out,
    remove_acceptance_criteria (Some (P ++ M ++ S)) = Some out
    /\ ~ ci_occurs "Success Metrics" out.
Proof.
  intros HM HP HR. eexists. split; [apply remove_acceptance_criteria_eq|].
  intros (m & Hm & Hin).
  assert (Hw : nl_free m)
    by (eapply ci_word_nl_free; [|eassumption]; reflexivity).
  assert (H : infix_of m P \/ infix_of m (from_first_blank S)).
  { destruct HM as [-> | ->].
    - exact (stripper_between P (py_lit "\n\nh2. Success Metrics") S _
               eq_refl (kept_h2_success P) (kept_h2_success_between P)
               _ m (remove_acceptance_criteria_eq _) Hw Hin).
    - exact (stripper_between P (py_lit "\n\n*Success Metrics:*") S _
               eq_refl (kept_bold_success P) (kept_bold_success_between P)
               _ m (remove_acceptance_criteria_eq _) Hw Hin). }
  destruct H as [H | H].
  - apply HP. exists m. split; assumption.
  - apply HR. exists m. split; assumption.
Qed.

Lemma success_metrics_removal_witness :
  let P := py_lit "*As a developer, I want X so Y*\n\nDescription here.\n\n*Acceptance Criteria:*\n* Item 1" in
  let M := py_lit "\n\n*Success Metrics:*" in
  let S := py_lit "\n* Metric 1\n\nh2. Acceptance Criteria\n* Item 2\n\nh2. Notes\nkeep" in
  (M = py_lit "\n\nh2. Success Metrics" \/ M = py_lit "\n\n*Success Metrics:*")
  /\ ~ ci_occurs "Success Metrics" P
  /\ ~ ci_occurs "Success Metrics" (from_first_blank S)
  /\ exists out,
       remove_acceptance_criteria (Some (P ++ M ++ S)) = Some out
       /\ ~ ci_occurs "Success Metrics" out.
Proof.
  cbv zeta.
  assert (HM : py_lit "\n\n*Success Metrics:*" = py_lit "\n\nh2. Success Metrics"
               \/ py_lit "\n\n*Success Metrics:*" = py_lit "\n\n*Success Metrics:*")
    by (right; reflexivity).
  assert (HP : ~ ci_occurs "Success Metrics"
                 (py_lit "*As a developer, I want X so Y*\n\nDescription here.\n\n*Acceptance Criteria:*\n* Item 1"))
    by (apply not_ci_occurs; vm_compute; reflexivity).
  assert (HR : ~ ci_occurs "Success Metrics"
                 (from_first_blank
                    (py_lit "\n* Metric 1\n\nh2. Acceptance Criteria\n* Item 2\n\nh2. Notes\nkeep")))
    by (apply not_ci_occurs; vm_compute; reflexivity).
  split; [exact HM|]. split; [exact HP|]. split; [exact HR|].
  exact (success_metrics_removal _ _ _ HM HP HR).
Defined.

(** ** The user-story pattern *)

Lemma lang_seq_cons (r1 r2 : regex) (s : text) (c : option text)
    (s' : text) (c' : option text) :
  lang (Seq r1 r2) s c s' c' ->
  exists s1 c1, lang r1 s c s1 c1 /\ lang r2 s1 c1 s' c'.
Proof.
  intros H.
  inversion H as [ | | | | r1' r2' s0 c0 s1 c1 s2 c2 H1 H2 | | | | | | | ];
    subst.
  eauto.
Qed.

Lemma lang_seq_nil (s : text) (c : option text) (s' : text)
    (c' : option text) :
  lang Eps s c s' c' -> s' = s /\ c' = c.
Proof. inversion 1; subst. auto. Qed.

Lemma lang_star (g : bool) (p : char -> bool) (s : text) (c : option text)
    (s' : text) (c' : option text) :
  lang (Star g p) s c s' c' ->
  exists m, s = m ++ s' /\ Forall (fun a => p a = true) m /\ c' = c.
Proof. inversion 1; subst. eauto. Qed.

Lemma lang_ws_plus (s : text) (c : option text) (s' : text)
    (c' : option text) :
  lang ws_plus s c s' c' -> exists m, s = m ++ s' /\ spaces m /\ c' = c.
Proof.
  unfold ws_plus. intros H.
  inversion H as [ | | | | r1 r2 s0 c0 s1 c1 s2 c2 H1 H2 | | | | | | | ];
    subst.
  inversion H1 as [ | p a s0 c0 Ha | | | | | | | | | | ]; subst.
  apply lang_star in H2 as (m & -> & Hm & ->).
  exists (a :: m). split; [reflexivity|]. split; [|reflexivity].
  split; [discriminate | constructor; assumption].
Qed.

Lemma lang_opt (p : char -> bool) (s : text) (c : option text) (s' : text)
    (c' : option text) :
  lang (Opt p) s c s' c' ->
  exists m, s = m ++ s' /\ (m = [] \/ exists a, m = [a] /\ p a = true)
            /\ c' = c.
Proof.
  inversion 1; subst.
  - exists []. auto.
  - exists [a]. split; [reflexivity|]. split; [right; eauto | reflexivity].
Qed.

Lemma firstn_matched (pre s : text) :
  firstn (List.length (pre ++ s) - List.length s) (pre ++ s) = pre.
Proof.
  rewrite length_app.
  replace (List.length pre + List.length s - List.length s)
    with (List.length pre + 0) by lia.
  rewrite firstn_app_2. simpl. apply app_nil_r.
Qed.

(** What a match of the user-story pattern tells: group 1 took part, it is
    the text up to a line break, and it has the shape of the sentence. *)
Lemma user_story_match_inv (d : text) (m : match_obj) :
  re_match pat_user_story d = Some m ->
  exists g,
    group1 m = Some g
    /\ d = g ++ nl :: after m
    /\ (exists o A r, g = o ++ A ++ r /\ (o = [] \/ o = [asterisk])
                      /\ ci_word "As" A)
    /\ begins_with_user_story d.
Proof.
  intros H. apply match_at_sound in H. unfold pat_user_story in H.
  apply lang_seq_cons in H as (s1 & c1 & HB & H).
  inversion HB; subst.
  apply lang_seq_cons in H as (s2 & c2 & HG & H).
  apply lang_seq_cons in H as (s3 & c3 & HN & H).
  apply lang_seq_nil in H as [-> ->].
  apply lang_lit_i in HN as (n & -> & Hn & ->).
  inversion Hn as [|p a l l' Ha Hn']; subst. inversion Hn'; subst.
  apply ci_eq_nl in Ha. subst a.
  inversion HG as [ | | | | | | | | | | | r s0 c0 s0' c0' HI ]; subst.
  pose proof (lang_suffix _ _ _ _ _ HI) as [g Hg].
  rewrite Hg. rewrite firstn_matched.
  exists g. split; [reflexivity|]. split; [reflexivity|].
  rewrite Hg in HI. clear Hg HG.
  apply lang_seq_cons in HI as (t1 & k1 & H1 & HI).
  apply lang_opt in H1 as (o & Ho & Hoc & ->).
  apply lang_seq_cons in HI as (t2 & k2 & H2 & HI).
  apply lang_lit_i in H2 as (A & HA & HAw & ->).
  apply lang_seq_cons in HI as (t3 & k3 & H3 & HI).
  apply lang_ws_plus in H3 as (w1 & Hw1 & Hw1s & ->).
  apply lang_seq_cons in HI as (t4 & k4 & H4 & HI).
  apply lang_lit_i in H4 as (a & Ha & Haw & ->).
  apply lang_seq_cons in HI as (t5 & k5 & H5 & HI).
  apply lang_ws_plus in H5 as (w2 & Hw2 & Hw2s & ->).
  apply lang_seq_cons in HI as (t6 & k6 & H6 & HI).
  apply lang_star in H6 as (x & Hx & _ & ->).
  apply lang_seq_cons in HI as (t7 & k7 & H7 & HI).
  apply lang_lit_i in H7 as (so & Hso & Hsow & ->).
  apply lang_seq_cons in HI as (t8 & k8 & H8 & HI).
  apply lang_ws_plus in H8 as (w3 & Hw3 & Hw3s & ->).
  apply lang_seq_cons in HI as (t9 & k9 & H9 & HI).
  apply lang_star in H9 as (y & Hy & _ & ->).
  apply lang_seq_cons in HI as (t10 & k10 & H10 & HI).
  apply lang_opt in H10 as (o2 & Ho2 & _ & ->).
  apply lang_seq_nil in HI as [Ht _]. subst t10.
  assert (Ho' : o = [] \/ o = [asterisk]).
  { destruct Hoc as [-> | (a0 & -> & Ha0)]; [left; reflexivity|].
    apply is_char_eq in Ha0. subst. right; reflexivity. }
  subst t9 t8 t7 t6 t5 t4 t3 t2 t1.
  split.
  - assert (Hg : g = o ++ A
                       ++ (w1 ++ a ++ w2 ++ x ++ so ++ w3 ++ y ++ o2)).
    { apply (app_inv_tail ([nl] ++ s3)). rewrite Ho.
      rewrite <- !app_assoc. reflexivity. }
    exists o, A, (w1 ++ a ++ w2 ++ x ++ so ++ w3 ++ y ++ o2). auto.
  - rewrite Ho.
    exists o, A, w1, a, w2, x, so, w3, (y ++ o2 ++ [nl] ++ s3).
    repeat split; try assumption; apply Hw1s || apply Hw2s || apply Hw3s.
Qed.

Lemma format_description_eq (d : text) :
  format_description (Some d)
  = match re_match pat_user_story d with
    | Some user_story_match =>
        bind (strip_of (group1 user_story_match)) (fun user_story_line =>
        let user_story_line := strip_chars (py_lit "*") user_story_line in
        let rest := strip (after user_story_match) in
        match re_match pat_description rest with
        | Some _ => Returns (Some (user_story_line ++ py_lit "\n\n" ++ rest))
        | None =>
            Returns (Some (user_story_line
                           ++ py_lit "\n\nh2. Description\n\n" ++ rest))
        end)
    | None => Returns (Some d)
    end.
Proof. destruct d; reflexivity. Qed.

Lemma process_description_eq (d : text) :
  process_description (Some d)
  = format_description (remove_acceptance_criteria (Some d)).
Proof. destruct d; reflexivity. Qed.

Lemma process_of_stripped (t s : text) :
  remove_acceptance_criteria (Some t) = Some s ->
  process t = format_description (Some s).
Proof.
  intros H. unfold process. rewrite process_description_eq.
  f_equal. exact H.
Qed.

Lemma format_unmatched (s : text) :
  ~ begins_with_user_story s ->
  format_description (Some s) = Returns (Some s).
Proof.
  intros Hb. rewrite format_description_eq.
  destruct (re_match pat_user_story s) as [m|] eqn:E; [|reflexivity].
  apply user_story_match_inv in E as (g & _ & _ & _ & H). contradiction.
Qed.

Lemma begins_opens_with_as (s : text) :
  begins_with_user_story s -> opens_with_as s = true.
Proof.
  intros (o & A & w1 & a & w2 & x & so & w3 & rest & -> & Ho & HA & _).
  unfold opens_with_as. apply orb_true_iff.
  destruct Ho as [-> | ->].
  - left. apply (proj2 (prefix_b_spec ci_eq (py_lit "As") _)).
    exists A. eexists. split; [reflexivity | exact HA].
  - right. cbn [app]. apply andb_true_iff. split; [reflexivity|].
    apply (proj2 (prefix_b_spec ci_eq (py_lit "As") _)).
    exists A. eexists. split; [reflexivity | exact HA].
Qed.

Lemma not_begins_with_user_story (s : text) :
  opens_with_as s = false -> ~ begins_with_user_story s.
Proof.
  intros H Hb. apply begins_opens_with_as in Hb. congruence.
Qed.

(** ** Three line breaks in a row *)

Lemma has_triple_cons_inv (c : char) (o : text) :
  has_triple_break (c :: o) ->
  (exists t, c :: o = nl :: nl :: nl :: t) \/ has_triple_break o.
Proof.
  intros H. apply infix_of_cons_inv in H as [[post H] | H].
  - left. exists post. exact H.
  - right. exact H.
Qed.

Lemma blank_lines_no_triple :
  forall (n : nat) (s : text) (b : bool),
    List.length s <= n ->
    ~ has_triple_break (sub_from pat_blank_lines [nl; nl] b s 0)
    /\ (forall t, sub_from pat_blank_lines [nl; nl] b s 0 = nl :: t ->
                  exists t', s = nl :: t')
    /\ (forall t, sub_from pat_blank_lines [nl; nl] b s 0 = nl :: nl :: t ->
                  exists t', s = nl :: nl :: t').
Proof.
  assert (Hnil : forall b,
            sub_from pat_blank_lines [nl; nl] b [] 0 = []).
  { intros b. apply sub_from_nil. apply anchored_none;
      [apply blank_lines_anchored|]. intros [t Ht]; discriminate. }
  assert (Hempty : ~ has_triple_break []).
  { intros H. apply infix_of_nil_inv in H. discriminate. }
  induction n as [|n IH]; intros s b Hn.
  - destruct s; [|simpl in Hn; lia]. rewrite Hnil.
    split; [assumption|]. split; intros t Ht; discriminate.
  - destruct s as [|c s].
    { rewrite Hnil. split; [assumption|]. split; intros t Ht; discriminate. }
    destruct (match_at pat_blank_lines b (c :: s)) as [m|] eqn:E.
    + apply blank_lines_inv in E as [t Ht]. rewrite Ht.
      rewrite blank_lines_step.
      destruct (lstrip_split (is_char nl) t) as (x & Hx & _).
      assert (Hlen : List.length (lstrip (is_char nl) t) <= n).
      { injection Ht as _ Ht.
        assert (Hl : List.length s = List.length (nl :: nl :: t))
          by (rewrite Ht; reflexivity).
        assert (Hl' : List.length t
                      = List.length (x ++ lstrip (is_char nl) t))
          by (rewrite <- Hx; reflexivity).
        rewrite length_app in Hl'. simpl in Hl, Hn. lia. }
      destruct (IH _ false Hlen) as (H1 & H2 & _).
      assert (Hhead : forall t0,
                sub_from pat_blank_lines [nl; nl] false
                  (lstrip (is_char nl) t) 0 <> nl :: t0).
      { intros t0 H0. apply H2 in H0 as [t' H0].
        apply lstrip_head in H0. discriminate. }
      split; [|split; intros; eexists; reflexivity].
      intros H. apply has_triple_cons_inv in H as [[t0 H] | H].
      * injection H as H. apply (Hhead _ H).
      * apply has_triple_cons_inv in H as [[t0 H] | H].
        -- injection H as H. apply (Hhead _ H).
        -- apply H1. assumption.
    + rewrite sub_from_none by assumption.
      simpl in Hn.
      destruct (IH s false ltac:(lia)) as (H1 & H2 & H3).
      split; [|split].
      * intros H. apply has_triple_cons_inv in H as [[t0 H] | H];
          [|apply H1; assumption].
        injection H as -> H. apply H3 in H as [t' ->].
        rewrite blank_lines_some in E. discriminate.
      * intros t H. injection H as -> _. eexists; reflexivity.
      * intros t H. injection H as -> H. apply H2 in H as [t' ->].
        eexists; reflexivity.
Qed.

(** ** A trimmed beginning of the text *)


(** ** The claims *)

(** *** C1 - idempotence of the whole normaliser *)

(** C1 fails on the code: running [process] on its own output inserts the
    [h2. Description] heading a second time when the story sentence ends in
    "so" right before the blank line. *)
Theorem process_not_idempotent :
  let t := py_lit "As a user I want this so\n\nDetails here." in
  let once := py_lit "As a user I want this so\n\nh2. Description\n\nDetails here." in
  let twice := py_lit "As a user I want this so\n\nh2. Description\n\nh2. Description\n\nDetails here." in
  process t = Returns (Some once)
  /\ process once = Returns (Some twice)
  /\ once <> twice.
Proof.
  cbv zeta. split; [vm_compute; reflexivity|].
  split; [vm_compute; reflexivity|].
  vm_compute. discriminate.
Qed.

(** *** C4 - the bold-wrap example *)

(** C4: on the bold-wrapped story of the specification [process] removes the
    asterisks of the story line, drops the acceptance-criteria section and
    inserts the heading. *)
Theorem bold_wrap_example :
  process (py_lit "*As a developer, I want X so Y*\n\nDescription here.\n\n*Acceptance Criteria:*\n* Item 1")
  = Returns (Some (py_lit "As a developer, I want X so Y\n\nh2. Description\n\nDescription here.")).
Proof. vm_compute. reflexivity. Qed.

(** *** C5 - pass-through of texts that are no user story *)

(** C5: when the stripped form of a non-empty text does not begin with a
    user-story sentence, [process] returns the stripped form: the formatter
    changes nothing. *)
Theorem pass_through (t s : text) :
  t <> [] ->
  remove_acceptance_criteria (Some t) = Some s ->
  ~ begins_with_user_story s ->
  process t = Returns (Some s).
Proof.
  intros _ Hs Hb.
  rewrite (process_of_stripped _ _ Hs). apply format_unmatched. assumption.
Qed.

Lemma pass_through_witness :
  let t := py_lit "Release notes for the sprint.\n\nh2. Acceptance Criteria\n* Item 1" in
  let s := py_lit "Release notes for the sprint." in
  t <> []
  /\ remove_acceptance_criteria (Some t) = Some s
  /\ ~ begins_with_user_story s
  /\ process t = Returns (Some s).
Proof.
  cbv zeta.
  assert (H1 : py_lit "Release notes for the sprint.\n\nh2. Acceptance Criteria\n* Item 1" <> [])
    by (vm_compute; discriminate).
  assert (H2 : remove_acceptance_criteria
                 (Some (py_lit "Release notes for the sprint.\n\nh2. Acceptance Criteria\n* Item 1"))
               = Some (py_lit "Release notes for the sprint."))
    by (vm_compute; reflexivity).
  assert (H3 : ~ begins_with_user_story
                   (py_lit "Release notes for the sprint."))
    by (apply not_begins_with_user_story; vm_compute; reflexivity).
  split; [exact H1|]. split; [exact H2|]. split; [exact H3|].
  exact (pass_through _ _ H1 H2 H3).
Defined.

(** *** C6 - no three line breaks in a row *)

(** C6 fails on the code: [process] can return a text with four line
    breaks in a row.  The stripper's output has none, but the formatter
    trims group 1 of the match before it removes the asterisks
    ([.strip()], then [.strip('*')]), so the line breaks that stand before
    a closing asterisk are uncovered after the trimming and stay at the end
    of the story line, in front of the blank line that the formatter adds.
    Removing the asterisks first and trimming afterwards, the order in
    which the specification lists the two steps, gives the story line
    without them. *)
Theorem formatter_uncovers_line_breaks :
  let t := py_lit "As a x so\n\n*\nz" in
  let g := py_lit "As a x so\n\n*" in
  remove_acceptance_criteria (Some t) = Some t
  /\ ~ has_triple_break t
  /\ re_match pat_user_story t = Some (MatchObj (Some g) (py_lit "z"))
  /\ strip_chars (py_lit "*") (strip g) = py_lit "As a x so\n\n"
  /\ strip (strip_chars (py_lit "*") g) = py_lit "As a x so"
  /\ process t = Returns (Some (py_lit "As a x so\n\n\n\nh2. Description\n\nz"))
  /\ has_triple_break (py_lit "As a x so\n\n\n\nh2. Description\n\nz").
Proof.
  cbv zeta. split; [vm_compute; reflexivity|].
  split; [apply not_infix_of; vm_compute; reflexivity|].
  split; [vm_compute; reflexivity|].
  split; [vm_compute; reflexivity|].
  split; [vm_compute; reflexivity|].
  split; [vm_compute; reflexivity|].
  apply infix_of_spec. vm_compute. reflexivity.
Qed.

(** *** C7 - absent and empty input *)

(** C7: [None] and the empty text are returned as they are, by [process]
    and by each of the two stages. *)
Theorem absence_is_noop :
  process_description None = Returns None
  /\ process_description (Some []) = Returns (Some [])
  /\ remove_acceptance_criteria None = None
  /\ remove_acceptance_criteria (Some []) = Some []
  /\ format_description None = Returns None
  /\ format_description (Some []) = Returns (Some []).
Proof. repeat split. Qed.

(** *** C8 - totality *)

Lemma sub_from_unmatched (r : regex) (repl : text) :
  forall (s : text) (b : bool),
    (forall x y bos, s = x ++ y -> match_at r bos y = None) ->
    sub_from r repl b s 0 = s.
Proof.
  induction s as [|c s IH]; intros b Hs.
  - apply sub_from_nil. apply (Hs [] []). reflexivity.
  - rewrite sub_from_none by (apply (Hs [] (c :: s)); reflexivity).
    f_equal. apply IH. intros x y bos ->.
    apply (Hs (c :: x) y). reflexivity.
Qed.

Lemma re_sub_unfound (r : regex) (repl : text) (t : text) :
  ~ found r t -> re_sub r repl t = t.
Proof.
  intros H. apply sub_from_unmatched. intros x y bos Hxy.
  destruct (match_at r bos y) as [m|] eqn:E; [|reflexivity].
  exfalso. apply H. exists x, y, bos, m. auto.
Qed.

Lemma apply_patterns_unfound (t : text) :
  (forall r, In r patterns -> ~ found r t) -> apply_patterns patterns t = t.
Proof.
  intros H. rewrite apply_patterns_eq.
  rewrite (re_sub_unfound pat_h2_acceptance) by (apply H; simpl; tauto).
  rewrite (re_sub_unfound pat_bold_acceptance) by (apply H; simpl; tauto).
  rewrite (re_sub_unfound pat_plain_acceptance) by (apply H; simpl; tauto).
  rewrite (re_sub_unfound pat_bold_success) by (apply H; simpl; tauto).
  apply re_sub_unfound. apply H. simpl. tauto.
Qed.

Lemma blank_lines_unfound (t : text) :
  ~ has_triple_break t -> ~ found pat_blank_lines t.
Proof.
  intros H (x & y & bos & m & -> & E).
  apply blank_lines_inv in E as [z ->].
  apply H. exists x, z. reflexivity.
Qed.

(** C8: for every input, absent or any text, [process] returns a value and
    raises nothing: when the user-story pattern matches, group 1 has taken
    part, so the [strip] on it is defined.  A text in which no section
    pattern matches and which does not begin with a user-story sentence
    comes back with its line-break runs collapsed and its ends trimmed and
    nothing else changed; if it has no such runs and no white space at its
    ends, it comes back as it is. *)
Theorem process_total (d : option text) :
  (exists r, process_description d = Returns r)
  /\ (forall t,
        d = Some t ->
        (forall r, In r patterns -> ~ found r t) ->
        ~ begins_with_user_story
            (strip (re_sub pat_blank_lines (py_lit "\n\n") t)) ->
        process_description d
        = Returns (Some (strip (re_sub pat_blank_lines (py_lit "\n\n") t))))
  /\ (forall t,
        d = Some t ->
        (forall r, In r patterns -> ~ found r t) ->
        ~ has_triple_break t -> strip t = t ->
        ~ begins_with_user_story t ->
        process_description d = Returns (Some t)).
Proof.
  assert (Hpass : forall t,
    (forall r, In r patterns -> ~ found r t) ->
    ~ begins_with_user_story
        (strip (re_sub pat_blank_lines (py_lit "\n\n") t)) ->
    process_description (Some t)
    = Returns (Some (strip (re_sub pat_blank_lines (py_lit "\n\n") t)))).
  { intros t Hnone Hstory.
    change (process_description (Some t)) with (process t).
    rewrite (process_of_stripped t
               (strip (re_sub pat_blank_lines (py_lit "\n\n") t))).
    - apply format_unmatched. assumption.
    - rewrite remove_acceptance_criteria_eq, apply_patterns_unfound
        by assumption.
      reflexivity. }
  split; [|split].
  - destruct d as [d|]; [|exists None; reflexivity].
    rewrite process_description_eq, remove_acceptance_criteria_eq.
    rewrite format_description_eq.
    destruct (re_match pat_user_story _) as [m|] eqn:E.
    + apply user_story_match_inv in E as (g & Hg & _).
      rewrite Hg. simpl.
      destruct (re_match pat_description _); eexists; reflexivity.
    + eexists; reflexivity.
  - intros t -> Hnone Hstory. apply Hpass; assumption.
  - intros t -> Hnone Htriple Htrim Hstory.
    assert (Hsame : strip (re_sub pat_blank_lines (py_lit "\n\n") t) = t).
    { rewrite re_sub_unfound by (apply blank_lines_unfound; assumption).
      assumption. }
    rewrite <- Hsame at 2. apply Hpass; [assumption|].
    rewrite Hsame. assumption.
Qed.

(** *** C9 - a section without a blank line before it stays *)

Lemma lstrip_infix (p : char -> bool) (w s : text) (a : char) (w' : text) :
  w = a :: w' -> p a = false -> infix_of w s -> infix_of w (lstrip p s).
Proof.
  intros -> Ha (x & y & ->). rewrite lstrip_app.
  destruct (lstrip p x) as [|c l] eqn:E.
  - change ((a :: w') ++ y) with (a :: w' ++ y).
    rewrite lstrip_keep by assumption.
    exists [], y. reflexivity.
  - exists (c :: l), y. reflexivity.
Qed.

Lemma infix_of_rev (w s : text) : infix_of w s -> infix_of (rev w) (rev s).
Proof.
  intros (x & y & ->). exists (rev y), (rev x).
  rewrite !rev_app_distr, <- app_assoc. reflexivity.
Qed.

Lemma rstrip_infix (p : char -> bool) (w s : text) (a : char) :
  w <> [] -> p (last w a) = false -> infix_of w s ->
  infix_of w (rstrip p s).
Proof.
  intros Hne Hl H. unfold rstrip.
  rewrite <- (rev_involutive w). apply infix_of_rev.
  apply (lstrip_infix p (rev w) (rev s) (last w a) (rev (removelast w))).
  - rewrite (app_removelast_last a Hne) at 1.
    rewrite rev_app_distr. reflexivity.
  - assumption.
  - apply infix_of_rev. assumption.
Qed.

Lemma strip_with_keeps (p : char -> bool) (w s : text) (a : char)
    (w' : text) :
  w = a :: w' -> p a = false -> p (last w a) = false ->
  infix_of w s -> infix_of w (strip_with p s).
Proof.
  intros Hw Ha Hl H. unfold strip_with.
  apply (rstrip_infix p w _ a); [subst; discriminate | assumption |].
  eapply lstrip_infix; eassumption.
Qed.

Lemma nl_free_prefix_app (w g t : text) :
  nl_free w -> prefix_of w (g ++ nl :: t) -> prefix_of w g.
Proof.
  revert w. induction g as [|c g IH]; intros w Hw H.
  - simpl in H. rewrite (nl_free_prefix_nl w t Hw H). apply prefix_of_nil.
  - simpl in H. apply prefix_of_cons_inv in H as [-> | (w1 & -> & H)].
    + apply prefix_of_nil.
    + apply IH in H as [post ->].
      * exists post. reflexivity.
      * intros Hin. apply Hw. right. assumption.
Qed.

Lemma nl_free_infix_app (w g t : text) :
  nl_free w -> infix_of w (g ++ nl :: t) -> infix_of w g \/ infix_of w t.
Proof.
  intros Hw. induction g as [|c g IH]; intros H; simpl in H.
  - apply infix_of_cons_inv in H as [H | H]; [|right; assumption].
    rewrite (nl_free_prefix_nl w t Hw H). left. apply infix_of_nil.
  - apply infix_of_cons_inv in H as [H | H].
    + left. apply prefix_infix.
      apply (nl_free_prefix_app w (c :: g) t Hw H).
    + destruct (IH H) as [H' | H']; [left | right; assumption].
      apply (infix_of_app_l w [c] g). assumption.
Qed.

Lemma solid_edges (w : text) :
  solid w = true ->
  exists a w', w = a :: w'
    /\ isspace a = false /\ isspace (last w a) = false
    /\ is_char asterisk a = false /\ is_char asterisk (last w a) = false.
Proof.
  destruct w as [|a w']; [discriminate|].
  unfold solid, edge_ok. intros H.
  apply andb_prop in H as [H1 H2].
  apply andb_prop in H1 as [H1 H1']. apply andb_prop in H2 as [H2 H2'].
  apply negb_true_iff in H1, H1', H2, H2'.
  exists a, w'. auto.
Qed.

(** The formatter keeps every solid one-line word of its input. *)
Lemma format_keeps (s w : text) :
  solid w = true -> nl_free w -> infix_of w s ->
  exists out, format_description (Some s) = Returns (Some out)
              /\ infix_of w out.
Proof.
  intros Hsolid Hw Hin.
  destruct (solid_edges w Hsolid) as (a & w' & Ew & Ha & Hl & Ha' & Hl').
  rewrite format_description_eq.
  destruct (re_match pat_user_story s) as [m|] eqn:E.
  - apply user_story_match_inv in E as (g & Hg & Hs & _).
    rewrite Hg. simpl bind. rewrite Hs in Hin.
    assert (Hout : forall mid,
      infix_of w (strip_chars (py_lit "*") (strip g)
                  ++ mid ++ strip (after m))).
    { intros mid.
      destruct (nl_free_infix_app w g (after m) Hw Hin) as [Hin' | Hin'];
        clear Hin; rename Hin' into Hin.
      - apply infix_of_app_r.
        apply (strip_with_keeps _ w _ a w' Ew).
        + simpl. rewrite orb_false_r. exact Ha'.
        + simpl. rewrite orb_false_r. exact Hl'.
        + apply (strip_with_keeps _ w _ a w' Ew); assumption.
      - apply infix_of_app_l. apply infix_of_app_l.
        apply (strip_with_keeps _ w _ a w' Ew); assumption. }
    destruct (re_match pat_description (strip (after m))).
    + eexists. split; [reflexivity|]. exact (Hout (py_lit "\n\n")).
    + eexists. split; [reflexivity|].
      exact (Hout (py_lit "\n\nh2. Description\n\n")).
  - exists s. split; [reflexivity | assumption].
Qed.










(** A text without blank line is the simplest case: it has no blank line
    at which a pattern could match, and no three line breaks in a row. *)
Lemma one_paragraph_clear (X : text) :
  ~ has_blank_line X -> no_earlier_section X /\ ~ has_triple_break X.
Proof.
  intros Hb. split.
  - intros r _ x t z bos HX. exfalso. apply Hb. exists x, t. exact HX.
  - intros (x & y & HX). apply Hb. exists x, (nl :: y). exact HX.
Qed.




(** *** C10 - asterisks around the story line *)

(** C10, as stated, fails for the doubly-bold opening line it names: the
    pattern admits one asterisk before "As", so such a text is not matched
    and comes back unchanged, asterisks included. *)
Lemma story_line_asterisks_counterexample :
  let t := py_lit "**As a developer, I want X so Y**\n\nDescription here." in
  re_match pat_user_story t = None
  /\ format_description (Some t) = Returns (Some t)
  /\ process t = Returns (Some t).
Proof.
  cbv zeta. split; [vm_compute; reflexivity|].
  split; vm_compute; reflexivity.
Qed.

(** C10, amended: when the user-story pattern matches, which allows at most
    one asterisk before "As" and any number of asterisks at the end of the
    line, [format_description] removes every leading and trailing asterisk
    from the matched line: the emitted story line neither begins nor ends
    with an asterisk.  A doubly-bold opening is not matched. *)
Theorem story_line_asterisks (d : text) (m : match_obj) :
  re_match pat_user_story d = Some m ->
  exists g line tail,
    group1 m = Some g
    /\ (exists o A r, g = o ++ A ++ r /\ (o = [] \/ o = [asterisk])
                      /\ ci_word "As" A)
    /\ line = strip_chars (py_lit "*") (strip g)
    /\ format_description (Some d)
       = Returns (Some (line ++ py_lit "\n\n" ++ tail))
    /\ (forall t, line <> asterisk :: t)
    /\ (forall x, line <> x ++ [asterisk]).
Proof.
  intros H. rewrite format_description_eq, H.
  apply user_story_match_inv in H as (g & Hg & _ & Hshape & _).
  rewrite Hg. simpl bind.
  exists g, (strip_chars (py_lit "*") (strip g)).
  assert (Hedges :
    (forall t, strip_chars (py_lit "*") (strip g) <> asterisk :: t)
    /\ (forall x, strip_chars (py_lit "*") (strip g) <> x ++ [asterisk])).
  { split.
    - intros t Ht. apply strip_with_head in Ht. discriminate.
    - intros x Hx. apply strip_with_last in Hx. discriminate. }
  destruct (re_match pat_description (strip (after m))).
  - exists (strip (after m)). tauto.
  - exists (py_lit "h2. Description\n\n" ++ strip (after m)).
    repeat split; try tauto.
Qed.

Lemma story_line_asterisks_witness :
  let d := py_lit "*As a developer, I want X so Y***\n\nDescription here." in
  let m := MatchObj (Some (py_lit "*As a developer, I want X so Y***"))
                    (py_lit "\nDescription here.") in
  re_match pat_user_story d = Some m
  /\ exists g line tail,
       group1 m = Some g
       /\ (exists o A r, g = o ++ A ++ r /\ (o = [] \/ o = [asterisk])
                         /\ ci_word "As" A)
       /\ line = strip_chars (py_lit "*") (strip g)
       /\ format_description (Some d)
          = Returns (Some (line ++ py_lit "\n\n" ++ tail))
       /\ (forall t, line <> asterisk :: t)
       /\ (forall x, line <> x ++ [asterisk]).
Proof.
  cbv zeta.
  assert (H : re_match pat_user_story
                (py_lit "*As a developer, I want X so Y***\n\nDescription here.")
              = Some (MatchObj
                        (Some (py_lit "*As a developer, I want X so Y***"))
                        (py_lit "\nDescription here.")))
    by (vm_compute; reflexivity).
  split; [exact H|].
  exact (story_line_asterisks _ _ H).
Defined.

(** ** Further properties of [remove_acceptance_criteria] *)

Lemma kept_apply_patterns (t : text) : kept (apply_patterns patterns t) t.
Proof.
  rewrite apply_patterns_eq.
  eapply kept_trans; [apply re_sub_kept, section_like_h2_success|].
  eapply kept_trans; [apply re_sub_kept, section_like_bold_success|].
  eapply kept_trans; [apply re_sub_kept, section_like_plain_acceptance|].
  eapply kept_trans; [apply re_sub_kept, section_like_bold_acceptance|].
  apply re_sub_kept, section_like_h2_acceptance.
Qed.

(** X1: the text returned by [remove_acceptance_criteria] has no white space
    at its beginning or at its end. *)
Theorem stripper_output_trimmed (t : text) :
  exists out,
    remove_acceptance_criteria (Some t) = Some out
    /\ (forall c r, out = c :: r -> isspace c = false)
    /\ (forall r c, out = r ++ [c] -> isspace c = false).
Proof.
  eexists. split; [apply remove_acceptance_criteria_eq|]. split.
  - intros c r H. eapply strip_with_head. exact H.
  - intros r c H. eapply strip_with_last. exact H.
Qed.

(** X2: [remove_acceptance_criteria] only takes text away: every run of
    characters on one line of its output stands, as it is, in its input. *)
Theorem stripper_only_removes (t : text) :
  exists out,
    remove_acceptance_criteria (Some t) = Some out
    /\ forall w, nl_free w -> infix_of w out -> infix_of w t.
Proof.
  eexists. split; [apply remove_acceptance_criteria_eq|].
  intros w Hw Hin.
  apply (stripper_from t t (kept_apply_patterns t) _ w
           (remove_acceptance_criteria_eq t)); assumption.
Qed.

Lemma sub_from_empty_length (r : regex) :
  forall (s : text) (b : bool) (n : nat),
    List.length (sub_from r [] b s n) <= List.length s.
Proof.
  induction s as [|c s IH]; intros b n.
  - destruct n; simpl; [|apply le_n].
    destruct (match_at r b []); apply le_n.
  - destruct n as [|n]; cbn [sub_from].
    + destruct (match_at r b (c :: s)) as [m|].
      * destruct (List.length (c :: s) - List.length (after m)) as [|k].
        -- simpl. apply le_n_S. apply IH.
        -- simpl app. apply Nat.le_trans with (List.length s);
             [apply IH | simpl; lia].
      * simpl. apply le_n_S. apply IH.
    + apply Nat.le_trans with (List.length s); [apply IH | simpl; lia].
Qed.

Lemma lstrip_length (p : char -> bool) (s : text) :
  List.length (lstrip p s) <= List.length s.
Proof.
  destruct (lstrip_split p s) as (x & Hx & _).
  rewrite Hx at 2. rewrite length_app. lia.
Qed.

Lemma strip_with_length (p : char -> bool) (s : text) :
  List.length (strip_with p s) <= List.length s.
Proof.
  unfold strip_with, rstrip. rewrite length_rev.
  apply Nat.le_trans with (List.length (rev (lstrip p s)));
    [apply lstrip_length|].
  rewrite length_rev. apply lstrip_length.
Qed.

Lemma blank_lines_length :
  forall (n : nat) (s : text) (b : bool),
    List.length s <= n ->
    List.length (sub_from pat_blank_lines [nl; nl] b s 0) <= List.length s.
Proof.
  induction n as [|n IH]; intros s b Hn.
  - destruct s; [|simpl in Hn; lia].
    rewrite sub_from_nil; [apply le_n|].
    apply anchored_none; [apply blank_lines_anchored|].
    intros [t Ht]; discriminate.
  - destruct s as [|c s].
    + rewrite sub_from_nil; [apply le_n|].
      apply anchored_none; [apply blank_lines_anchored|].
      intros [t Ht]; discriminate.
    + destruct (match_at pat_blank_lines b (c :: s)) as [m|] eqn:E.
      * apply blank_lines_inv in E as [t Ht]. rewrite Ht.
        rewrite blank_lines_step.
        pose proof (lstrip_length (is_char nl) t) as Hl.
        assert (Hlen : List.length (lstrip (is_char nl) t) <= n).
        { assert (H : List.length (c :: s)
                      = List.length (nl :: nl :: nl :: t))
            by (rewrite Ht; reflexivity).
          simpl in H, Hn. lia. }
        pose proof (IH _ false Hlen) as H. simpl. lia.
      * rewrite sub_from_none by assumption.
        simpl. apply le_n_S. apply IH. simpl in Hn. lia.
Qed.

Lemma stripped_length (t : text) :
  List.length (strip (re_sub pat_blank_lines (py_lit "\n\n")
                        (apply_patterns patterns t)))
  <= List.length t.
Proof.
  eapply Nat.le_trans; [apply strip_with_length|].
  eapply Nat.le_trans; [apply (blank_lines_length _ _ true (le_n _))|].
  rewrite apply_patterns_eq. unfold re_sub.
  repeat (eapply Nat.le_trans; [apply sub_from_empty_length|]).
  apply le_n.
Qed.

(** X3: [remove_acceptance_criteria] never makes a text longer. *)
Theorem stripper_never_longer (t : text) :
  exists out,
    remove_acceptance_criteria (Some t) = Some out
    /\ List.length out <= List.length t.
Proof.
  eexists. split; [apply remove_acceptance_criteria_eq|].
  apply stripped_length.
Qed.

Lemma no_blank_line_suffix (t x y : text) :
  ~ has_blank_line t -> t = x ++ y -> ~ starts_blank y.
Proof.
  intros H -> [z ->]. apply H. exists x, z. reflexivity.
Qed.

Lemma one_paragraph_stripped (t : text) :
  ~ has_blank_line t ->
  remove_acceptance_criteria (Some t) = Some (strip t).
Proof.
  intros H. rewrite remove_acceptance_criteria_eq, apply_patterns_eq.
  assert (Hid : forall r repl, blank_anchored r -> re_sub r repl t = t).
  { intros r repl Hr. apply sub_from_id; [assumption|].
    intros x y. apply no_blank_line_suffix. assumption. }
  rewrite (Hid pat_h2_acceptance)
    by apply section_like_anchored, section_like_h2_acceptance.
  rewrite (Hid pat_bold_acceptance)
    by apply section_like_anchored, section_like_bold_acceptance.
  rewrite (Hid pat_plain_acceptance)
    by apply section_like_anchored, section_like_plain_acceptance.
  rewrite (Hid pat_bold_success)
    by apply section_like_anchored, section_like_bold_success.
  rewrite (Hid pat_h2_success)
    by apply section_like_anchored, section_like_h2_success.
  rewrite (Hid pat_blank_lines) by apply blank_lines_anchored.
  reflexivity.
Qed.

(** X4: a text of one paragraph, that is, without two line breaks in a
    row, is only trimmed by [remove_acceptance_criteria]: no pattern applies
    to it, whatever words it contains. *)
Theorem single_paragraph_only_trimmed (t : text) :
  ~ has_blank_line t ->
  remove_acceptance_criteria (Some t) = Some (strip t).
Proof. apply one_paragraph_stripped. Qed.

Lemma single_paragraph_only_trimmed_witness :
  let t := py_lit "  h2. Acceptance Criteria\n* Item 1\n*Success Metrics:*\n* Metric 1\n" in
  ~ has_blank_line t
  /\ remove_acceptance_criteria (Some t) = Some (strip t).
Proof.
  cbv zeta.
  assert (H : ~ has_blank_line
                (py_lit "  h2. Acceptance Criteria\n* Item 1\n*Success Metrics:*\n* Metric 1\n"))
    by (apply not_infix_of; vm_compute; reflexivity).
  split; [exact H|].
  exact (single_paragraph_only_trimmed _ H).
Defined.

Lemma bold_acceptance_found (B : text) (bos : bool) :
  match_at pat_bold_acceptance bos (py_lit "\n\n*Acceptance Criteria:*" ++ B)
  <> None.
Proof. unfold pat_bold_acceptance. marker_found. Qed.

Lemma plain_acceptance_found (B : text) (bos : bool) :
  match_at pat_plain_acceptance bos (py_lit "\n\nAcceptance Criteria:" ++ B)
  <> None.
Proof. unfold pat_plain_acceptance. marker_found. Qed.

Lemma sealed_bold_acceptance (B : text) :
  ~ has_blank_line B -> sealed (py_lit "\n\n*Acceptance Criteria:*" ++ B).
Proof.
  intros HB.
  apply (sealed_marker 42%N (py_lit "Acceptance Criteria:*") B);
    [|assumption].
  intros Hin. simpl in Hin. unfold nl in Hin.
  repeat (destruct Hin as [Hin | Hin]; [discriminate|]). exact Hin.
Qed.

Lemma sealed_plain_acceptance (B : text) :
  ~ has_blank_line B -> sealed (py_lit "\n\nAcceptance Criteria:" ++ B).
Proof.
  intros HB.
  apply (sealed_marker 65%N (py_lit "cceptance Criteria:") B); [|assumption].
  intros Hin. simpl in Hin. unfold nl in Hin.
  repeat (destruct Hin as [Hin | Hin]; [discriminate|]). exact Hin.
Qed.

Lemma kept_bold_acceptance (P B : text) :
  ~ has_blank_line B ->
  kept (apply_patterns patterns
          (P ++ py_lit "\n\n*Acceptance Criteria:*" ++ B)) P.
Proof.
  intros HB. rewrite apply_patterns_eq.
  pose proof (sealed_bold_acceptance B HB) as HT.
  eapply kept_trans; [apply re_sub_kept, section_like_h2_success|].
  eapply kept_trans; [apply re_sub_kept, section_like_bold_success|].
  eapply kept_trans; [apply re_sub_kept, section_like_plain_acceptance|].
  apply (pending_hit pat_bold_acceptance P
           (py_lit "\n\n*Acceptance Criteria:*" ++ B)).
  - apply section_like_bold_acceptance.
  - assumption.
  - intros bos. apply bold_acceptance_found.
  - apply pending_step;
      [apply section_like_h2_acceptance | assumption |].
    apply pending_start.
Qed.

Lemma kept_plain_acceptance (P B : text) :
  ~ has_blank_line B ->
  kept (apply_patterns patterns
          (P ++ py_lit "\n\nAcceptance Criteria:" ++ B)) P.
Proof.
  intros HB. rewrite apply_patterns_eq.
  pose proof (sealed_plain_acceptance B HB) as HT.
  eapply kept_trans; [apply re_sub_kept, section_like_h2_success|].
  eapply kept_trans; [apply re_sub_kept, section_like_bold_success|].
  apply (pending_hit pat_plain_acceptance P
           (py_lit "\n\nAcceptance Criteria:" ++ B)).
  - apply section_like_plain_acceptance.
  - assumption.
  - intros bos. apply plain_acceptance_found.
  - apply pending_step;
      [apply section_like_bold_acceptance | assumption |].
    apply pending_step;
      [apply section_like_h2_acceptance | assumption |].
    apply pending_start.
Qed.

(** X5: the two label forms of the acceptance-criteria section are removed
    like the heading form.  When the bold label [*Acceptance Criteria:*] or
    the plain label [Acceptance Criteria:] follows a blank line, the text
    before it does not contain the words, and the lines after it run to the
    end of the text without a blank line, the output of
    [remove_acceptance_criteria] does not contain "Acceptance Criteria" in
    any letter case. *)
Theorem labelled_acceptance_criteria_removal (P M B : text) :
  M = py_lit "\n\n*Acceptance Criteria:*"
  \/ M = py_lit "\n\nAcceptance Criteria:" ->
  ~ ci_occurs "Acceptance Criteria" P ->
  ~ has_blank_line B ->
  exists out,
    remove_acceptance_criteria (Some (P ++ M ++ B)) = Some out
    /\ ~ ci_occurs "Acceptance Criteria" out.
Proof.
  intros HM HP HB.
  assert (Hk : kept (apply_patterns patterns (P ++ M ++ B)) P).
  { destruct HM as [-> | ->].
    - apply kept_bold_acceptance. assumption.
    - apply kept_plain_acceptance. assumption. }
  eexists. split; [apply remove_acceptance_criteria_eq|].
  intros (m & Hm & Hin). apply HP. exists m. split; [assumption|].
  apply (stripper_from P (P ++ M ++ B) Hk _ m
           (remove_acceptance_criteria_eq _)).
  - eapply ci_word_nl_free; [|eassumption]. reflexivity.
  - assumption.
Qed.

Lemma labelled_acceptance_criteria_removal_witness :
  let P := py_lit "As a tester, I want Z so W\n\nh2. Description\n\nBody text." in
  let M := py_lit "\n\nAcceptance Criteria:" in
  let B := py_lit "\n- first\n- second\n" in
  (M = py_lit "\n\n*Acceptance Criteria:*"
   \/ M = py_lit "\n\nAcceptance Criteria:")
  /\ ~ ci_occurs "Acceptance Criteria" P
  /\ ~ has_blank_line B
  /\ exists out,
       remove_acceptance_criteria (Some (P ++ M ++ B)) = Some out
       /\ ~ ci_occurs "Acceptance Criteria" out.
Proof.
  cbv zeta.
  assert (HM : py_lit "\n\nAcceptance Criteria:"
               = py_lit "\n\n*Acceptance Criteria:*"
               \/ py_lit "\n\nAcceptance Criteria:"
                  = py_lit "\n\nAcceptance Criteria:")
    by (right; reflexivity).
  assert (HP : ~ ci_occurs "Acceptance Criteria"
                 (py_lit "As a tester, I want Z so W\n\nh2. Description\n\nBody text."))
    by (apply not_ci_occurs; vm_compute; reflexivity).
  assert (HB : ~ has_blank_line (py_lit "\n- first\n- second\n"))
    by (apply not_infix_of; vm_compute; reflexivity).
  split; [exact HM|]. split; [exact HP|]. split; [exact HB|].
  exact (labelled_acceptance_criteria_removal _ _ _ HM HP HB).
Defined.

Lemma filter_all_out (p : char -> bool) (x rest : text) :
  Forall (fun c => p c = true) x ->
  filter (fun c => negb (p c)) (x ++ rest)
  = filter (fun c => negb (p c)) rest.
Proof.
  induction 1 as [|c x Hc _ IH]; simpl; [reflexivity|].
  rewrite Hc. simpl. assumption.
Qed.

Lemma blank_lines_filter :
  forall (n : nat) (s : text) (b : bool),
    List.length s <= n ->
    filter (fun c => negb (is_char nl c))
      (sub_from pat_blank_lines [nl; nl] b s 0)
    = filter (fun c => negb (is_char nl c)) s.
Proof.
  induction n as [|n IH]; intros s b Hn.
  - destruct s; [|simpl in Hn; lia].
    rewrite sub_from_nil; [reflexivity|].
    apply anchored_none; [apply blank_lines_anchored|].
    intros [t Ht]; discriminate.
  - destruct s as [|c s].
    + rewrite sub_from_nil; [reflexivity|].
      apply anchored_none; [apply blank_lines_anchored|].
      intros [t Ht]; discriminate.
    + destruct (match_at pat_blank_lines b (c :: s)) as [m|] eqn:E.
      * apply blank_lines_inv in E as [t Ht]. rewrite Ht.
        rewrite blank_lines_step.
        destruct (lstrip_split (is_char nl) t) as (x & Hx & Hall).
        pose proof (lstrip_length (is_char nl) t) as Hl.
        assert (Hlen : List.length (lstrip (is_char nl) t) <= n).
        { assert (H : List.length (c :: s)
                      = List.length (nl :: nl :: nl :: t))
            by (rewrite Ht; reflexivity).
          simpl in H, Hn. lia. }
        change (filter (fun c0 => negb (is_char nl c0))
                  (sub_from pat_blank_lines [nl; nl] false
                     (lstrip (is_char nl) t) 0)
                = filter (fun c0 => negb (is_char nl c0)) t).
        rewrite (IH _ false Hlen). rewrite Hx at 2.
        symmetry. apply filter_all_out. assumption.
      * rewrite sub_from_none by assumption.
        simpl. rewrite IH by (simpl in Hn; lia). reflexivity.
Qed.

(** X6: the clean-up of blank lines ([re.sub] of three or more line breaks
    by two) deletes line breaks and nothing else: without their line
    breaks, the text before and the text after are the same. *)
Theorem blank_line_cleanup_keeps_text (t : text) :
  filter (fun c => negb (is_char nl c))
    (re_sub pat_blank_lines (py_lit "\n\n") t)
  = filter (fun c => negb (is_char nl c)) t.
Proof. apply (blank_lines_filter _ t true (le_n _)). Qed.

(** ** Further properties of [format_description] *)

Lemma orelse_right {A : Type} (x y : option A) :
  y <> None -> orelse x y <> None.
Proof. destruct x; simpl; [discriminate | auto]. Qed.

(** A literal reads the text that spells it. *)
Lemma run_chars_complete (f : char -> char -> bool) (l m : text) :
  Forall2 (fun p a => f p a = true) l m ->
  forall (A : Type) (bos : bool) (s : text) (cap : option text)
         (k : bool -> text -> option text -> option A),
    run (seq (map (fun p => Chr (f p)) l)) A bos (m ++ s) cap k
    = k (match m with [] => bos | _ => false end) s cap.
Proof.
  induction 1 as [|p a l m Hpa _ IH]; intros A bos s cap k.
  - reflexivity.
  - simpl. rewrite Hpa. rewrite IH. destruct m; reflexivity.
Qed.

(** A greedy loop followed by something that succeeds right after the run
    succeeds. *)
Lemma star_greedy_some {A : Type} (p : char -> bool) (t : text)
    (k : bool -> text -> option A) :
  (forall b, k b t <> None) ->
  forall (w : text) (b : bool),
    Forall (fun c => p c = true) w ->
    star true p b (w ++ t) k <> None.
Proof.
  intros Hk. induction w as [|c w IH]; intros b Hw.
  - simpl. destruct t as [|c t']; simpl; [apply Hk|].
    destruct (p c); [apply orelse_right|]; apply Hk.
  - inversion Hw as [|c' w' Hc Hw']; subst.
    simpl. rewrite Hc. apply orelse_left. apply IH. assumption.
Qed.

Lemma description_match_inv (s : text) (m : match_obj) :
  re_match pat_description s = Some m -> begins_with_heading s.
Proof.
  intros H. apply match_at_sound in H. unfold pat_description in H.
  apply lang_seq_cons in H as (s1 & c1 & HB & H).
  inversion HB; subst.
  apply lang_seq_cons in H as (s2 & c2 & H1 & H).
  apply lang_lit_i in H1 as (Hd & -> & HHd & _).
  apply lang_seq_cons in H as (s3 & c3 & H2 & H).
  apply lang_star in H2 as (w & -> & Hw & _).
  apply lang_seq_cons in H as (s4 & c4 & H3 & H).
  apply lang_lit_i in H3 as (D & -> & HD & _).
  exists Hd, w, D, s4. auto.
Qed.

Lemma description_match_complete (s : text) :
  begins_with_heading s -> re_match pat_description s <> None.
Proof.
  intros (Hd & w & D & r & -> & HHd & Hw & HD).
  unfold re_match, match_at, pat_description.
  change (run (Seq Bol (Seq (lit_i "h2.")
                 (Seq ws_star (Seq (lit_i "Description") Eps))))
            match_obj true (Hd ++ w ++ D ++ r) None
            (fun _ s' cap => Some (MatchObj cap s')) <> None).
  cbn [run]. unfold lit_i at 1.
  rewrite (run_chars_complete ci_eq _ _ HHd).
  unfold ws_star. cbn [run].
  apply star_greedy_some; [|assumption].
  intros b. unfold lit_i.
  rewrite (run_chars_complete ci_eq _ _ HD).
  discriminate.
Qed.

(** X7: when the text begins with a user-story line, [format_description]
    returns that very line, which is group 1 of the match (the text up to
    the line break the pattern ends with) trimmed and without the asterisks
    at its two ends, then a blank line, then a text that begins with a
    Description heading: the one already there after the story line, kept
    with nothing added, or else [h2. Description] put in front of the
    rest. *)
Theorem formatted_has_heading (d : text) (m : match_obj) :
  re_match pat_user_story d = Some m ->
  exists g tail,
    group1 m = Some g
    /\ d = g ++ nl :: after m
    /\ format_description (Some d)
       = Returns (Some (strip_chars (py_lit "*") (strip g)
                        ++ py_lit "\n\n" ++ tail))
    /\ begins_with_heading tail
    /\ (begins_with_heading (strip (after m)) -> tail = strip (after m))
    /\ (~ begins_with_heading (strip (after m)) ->
        tail = py_lit "h2. Description\n\n" ++ strip (after m)).
Proof.
  intros H. rewrite format_description_eq, H.
  apply user_story_match_inv in H as (g & Hg & Hd & _).
  rewrite Hg. simpl bind.
  exists g.
  destruct (re_match pat_description (strip (after m))) as [m'|] eqn:E.
  - exists (strip (after m)).
    pose proof (description_match_inv _ _ E) as Hh.
    split; [reflexivity|]. split; [assumption|].
    split; [reflexivity|]. split; [assumption|].
    split; [reflexivity|]. intros Hn. contradiction.
  - exists (py_lit "h2. Description\n\n" ++ strip (after m)).
    split; [reflexivity|]. split; [assumption|].
    split; [reflexivity|]. split; [|split].
    + exists (py_lit "h2."), (py_lit " "), (py_lit "Description"),
        (py_lit "\n\n" ++ strip (after m)).
      split; [reflexivity|].
      split; [repeat constructor|].
      split; repeat constructor.
    + intros Hh. apply description_match_complete in Hh. contradiction.
    + reflexivity.
Qed.

Lemma formatted_has_heading_witness :
  let d := py_lit "*as a User, I want X so Y* \n\nH2.description\nBody." in
  let m := MatchObj (Some (py_lit "*as a User, I want X so Y* "))
                    (py_lit "\nH2.description\nBody.") in
  re_match pat_user_story d = Some m
  /\ exists g tail,
       group1 m = Some g
       /\ d = g ++ nl :: after m
       /\ format_description (Some d)
          = Returns (Some (strip_chars (py_lit "*") (strip g)
                           ++ py_lit "\n\n" ++ tail))
       /\ begins_with_heading tail
       /\ (begins_with_heading (strip (after m)) -> tail = strip (after m))
       /\ (~ begins_with_heading (strip (after m)) ->
           tail = py_lit "h2. Description\n\n" ++ strip (after m)).
Proof.
  cbv zeta.
  assert (H : re_match pat_user_story
                (py_lit "*as a User, I want X so Y* \n\nH2.description\nBody.")
              = Some (MatchObj (Some (py_lit "*as a User, I want X so Y* "))
                               (py_lit "\nH2.description\nBody.")))
    by (vm_compute; reflexivity).
  split; [exact H|].
  exact (formatted_has_heading _ _ H).
Defined.

(** X8: [format_description] loses no word: every run of characters on one
    line of its input that neither starts nor ends with white space or an
    asterisk stands in the text it returns. *)
Theorem format_keeps_words (s w : text) :
  solid w = true -> nl_free w -> infix_of w s ->
  exists out,
    format_description (Some s) = Returns (Some out) /\ infix_of w out.
Proof. apply format_keeps. Qed.

Lemma format_keeps_words_witness :
  let s := py_lit "*As a developer, I want X so Y*\n\n  Description here.  " in
  let w := py_lit "Description here." in
  solid w = true /\ nl_free w /\ infix_of w s
  /\ exists out,
       format_description (Some s) = Returns (Some out) /\ infix_of w out.
Proof.
  cbv zeta.
  assert (H1 : solid (py_lit "Description here.") = true)
    by (vm_compute; reflexivity).
  assert (H2 : nl_free (py_lit "Description here.")).
  { intros Hin. apply (not_infix_of [nl] (py_lit "Description here."));
      [vm_compute; reflexivity|].
    apply in_split in Hin as (x & y & Hxy). exists x, y. exact Hxy. }
  assert (H3 : infix_of (py_lit "Description here.")
                 (py_lit "*As a developer, I want X so Y*\n\n  Description here.  "))
    by (apply infix_of_spec; vm_compute; reflexivity).
  split; [exact H1|]. split; [exact H2|]. split; [exact H3|].
  exact (format_keeps_words _ _ H1 H2 H3).
Defined.

(** The pattern needs a line break after the story line. *)
Lemma format_one_line (d : text) :
  nl_free d -> format_description (Some d) = Returns (Some d).
Proof.
  intros Hd. rewrite format_description_eq.
  destruct (re_match pat_user_story d) as [m|] eqn:E; [|reflexivity].
  apply user_story_match_inv in E as (g & _ & Hs & _).
  exfalso. apply Hd. rewrite Hs. apply in_or_app. right. left. reflexivity.
Qed.

Lemma nl_free_infix (w s : text) : nl_free s -> infix_of w s -> nl_free w.
Proof.
  intros Hs (x & y & ->) Hin. apply Hs.
  apply in_or_app. right. apply in_or_app. left. assumption.
Qed.

Lemma nl_free_no_blank_line (t : text) : nl_free t -> ~ has_blank_line t.
Proof.
  intros Ht (x & y & ->). apply Ht.
  apply in_or_app. right. left. reflexivity.
Qed.

(** X9: a text on one line, even a user-story sentence, gets no heading:
    [process] returns it trimmed and otherwise unchanged, and so does
    [format_description] without the trimming. *)
Theorem one_line_text_unformatted (t : text) :
  nl_free t ->
  format_description (Some t) = Returns (Some t)
  /\ process t = Returns (Some (strip t)).
Proof.
  intros Ht. split; [apply format_one_line; assumption|].
  rewrite (process_of_stripped t (strip t)).
  - apply format_one_line.
    eapply nl_free_infix; [eassumption | apply strip_with_infix].
  - apply one_paragraph_stripped. apply nl_free_no_blank_line. assumption.
Qed.

Lemma one_line_text_unformatted_witness :
  let t := py_lit " *As a developer, I want X so Y* " in
  nl_free t
  /\ format_description (Some t) = Returns (Some t)
  /\ process t = Returns (Some (strip t)).
Proof.
  cbv zeta.
  assert (H : nl_free (py_lit " *As a developer, I want X so Y* ")).
  { intros Hin.
    apply (not_infix_of [nl] (py_lit " *As a developer, I want X so Y* "));
      [vm_compute; reflexivity|].
    apply in_split in Hin as (x & y & Hxy). exists x, y. exact Hxy. }
  split; [exact H|].
  exact (one_line_text_unformatted _ H).
Defined.

(** ** Further properties of [process_description] *)

Lemma ci_eq_A_cases (c : char) :
  ci_eq 65%N c = true -> c = 65%N \/ c = 97%N.
Proof.
  unfold ci_eq. intros H.
  apply orb_prop in H as [H | H];
    [apply orb_prop in H as [H | H];
       [apply orb_prop in H as [H | H] | ] | ];
    try (apply andb_prop in H as [H _]; vm_compute in H; discriminate).
  apply N.eqb_eq in H. change (ascii_lower 65%N) with 97%N in H.
  unfold ascii_lower in H.
  destruct ((65 <=? c) && (c <=? 90))%N eqn:E.
  - left. lia.
  - right. assumption.
Qed.

Lemma rstrip_cons_keep (p : char -> bool) (a : char) (z : text) :
  p a = false -> rstrip p (a :: z) = a :: rstrip p z.
Proof. intros H. apply (rstrip_app_keep p [] a z H). Qed.

Lemma strip_with_keep_head (p : char -> bool) (a : char) (z : text) :
  p a = false -> strip_with p (a :: z) = a :: rstrip p z.
Proof.
  intros H. unfold strip_with. rewrite lstrip_keep by assumption.
  apply rstrip_cons_keep. assumption.
Qed.

Lemma strip_with_nil_all (p : char -> bool) (x : text) :
  strip_with p x = [] -> Forall (fun c => p c = true) x.
Proof.
  unfold strip_with. intros H.
  destruct (lstrip_split p x) as (y & Hy & Hall).
  destruct (lstrip p x) as [|c l] eqn:E.
  - rewrite app_nil_r in Hy. subst. assumption.
  - pose proof (lstrip_head p x c l E) as Hc.
    rewrite rstrip_cons_keep in H by assumption. discriminate.
Qed.

(** The story line that the formatter emits begins with the letter A of
    "As". *)
Lemma story_line_head (g o A r : text) :
  g = o ++ A ++ r -> o = [] \/ o = [asterisk] -> ci_word "As" A ->
  exists a z,
    strip_chars (py_lit "*") (strip g) = a :: z /\ isspace a = false.
Proof.
  intros -> Ho HA. unfold ci_word in HA.
  inversion HA as [|p a l l' Ha HA']; subst.
  assert (Hsp : isspace a = false)
    by (apply ci_eq_A_cases in Ha as [-> | ->]; reflexivity).
  assert (Hst : existsb (N.eqb a) (py_lit "*") = false)
    by (apply ci_eq_A_cases in Ha as [-> | ->]; reflexivity).
  unfold strip_chars, strip.
  destruct Ho as [-> | ->]; cbn [app].
  - rewrite (strip_with_keep_head isspace) by assumption.
    rewrite strip_with_keep_head by assumption.
    eauto.
  - assert (Hast : isspace asterisk = false) by reflexivity.
    rewrite (strip_with_keep_head isspace) by assumption.
    rewrite (rstrip_cons_keep isspace) by assumption.
    unfold strip_with at 1.
    assert (Hl : lstrip (fun c => existsb (N.eqb c) (py_lit "*"))
                   (asterisk :: a :: rstrip isspace (l' ++ r))
                 = a :: rstrip isspace (l' ++ r)).
    { cbn [lstrip].
      change (existsb (N.eqb asterisk) (py_lit "*")) with true.
      cbv iota. rewrite Hst. reflexivity. }
    rewrite Hl. rewrite rstrip_cons_keep by assumption.
    eauto.
Qed.

(** The text after the story line is not white space only, because the
    stripped text does not end in white space. *)
Lemma rest_not_blank (s g aft : text) :
  (forall r c, s = r ++ [c] -> isspace c = false) ->
  s = g ++ nl :: aft ->
  exists rr c, strip aft = rr ++ [c] /\ isspace c = false.
Proof.
  intros Hlast Hs.
  destruct (strip aft) as [|c0 l0] eqn:E.
  - exfalso. apply strip_with_nil_all in E.
    assert (Hall : Forall (fun c => isspace c = true) (nl :: aft))
      by (constructor; [reflexivity | assumption]).
    assert (Hne : nl :: aft <> []) by discriminate.
    destruct (exists_last Hne) as (x & c & Hx).
    rewrite Hx in Hall, Hs.
    apply Forall_app in Hall as [_ Hc].
    inversion Hc as [|c' l' Hc' _]; subst.
    rewrite (Hlast (g ++ x) c) in Hc';
      [discriminate | apply app_assoc].
  - assert (Hne : c0 :: l0 <> []) by discriminate.
    destruct (exists_last Hne) as (rr & c & Hx).
    exists rr, c. split; [exact Hx|].
    unfold strip in E. rewrite Hx in E.
    eapply strip_with_last. exact E.
Qed.

(** What [process] returns, in its two shapes. *)
Lemma process_shapes (t out : text) :
  process t = Returns (Some out) ->
  let s := strip (re_sub pat_blank_lines (py_lit "\n\n")
                    (apply_patterns patterns t)) in
  out = s
  \/ exists m g mid,
       re_match pat_user_story s = Some m
       /\ group1 m = Some g
       /\ s = g ++ nl :: after m
       /\ (mid = py_lit "\n\n" \/ mid = py_lit "\n\nh2. Description\n\n")
       /\ out = strip_chars (py_lit "*") (strip g) ++ mid ++ strip (after m).
Proof.
  intros Hp s.
  rewrite (process_of_stripped t s) in Hp
    by apply remove_acceptance_criteria_eq.
  rewrite format_description_eq in Hp.
  destruct (re_match pat_user_story s) as [m|] eqn:E.
  - right.
    pose proof (user_story_match_inv _ _ E) as (g & Hg & Hs & _).
    rewrite Hg in Hp. simpl bind in Hp.
    exists m, g.
    destruct (re_match pat_description (strip (after m))).
    + exists (py_lit "\n\n"). injection Hp as <-. auto 6.
    + exists (py_lit "\n\nh2. Description\n\n"). injection Hp as <-. auto 6.
  - left. injection Hp as <-. reflexivity.
Qed.

(** X10: the text returned by [process] has no white space at its beginning
    or at its end, whether the formatter rewrote it or not. *)
Theorem process_output_trimmed (t out : text) :
  process t = Returns (Some out) ->
  (forall c r, out = c :: r -> isspace c = false)
  /\ (forall r c, out = r ++ [c] -> isspace c = false).
Proof.
  intros Hp. apply process_shapes in Hp. cbv zeta in Hp.
  set (s := strip (re_sub pat_blank_lines (py_lit "\n\n")
                     (apply_patterns patterns t))) in *.
  assert (Hhead : forall c r, s = c :: r -> isspace c = false)
    by (intros c r H; eapply strip_with_head; exact H).
  assert (Hlast : forall r c, s = r ++ [c] -> isspace c = false)
    by (intros r c H; eapply strip_with_last; exact H).
  destruct Hp as [-> | (m & g & mid & E & Hg & Hs & Hmid & ->)];
    [split; assumption|].
  pose proof (user_story_match_inv _ _ E)
    as (g' & Hg' & _ & (o & A & r0 & Hgo & Ho & HA) & _).
  rewrite Hg in Hg'. injection Hg' as <-.
  destruct (story_line_head g o A r0 Hgo Ho HA) as (a & z & Hline & Ha).
  destruct (rest_not_blank s g (after m) Hlast Hs) as (rr & c' & Hrest & Hc').
  rewrite Hline, Hrest. split.
  - intros c r H. injection H as <- _. assumption.
  - intros r c H.
    rewrite !app_assoc in H.
    apply app_inj_tail in H as [_ <-]. assumption.
Qed.

Lemma process_output_trimmed_witness :
  let t := py_lit "  *As a developer, I want X so Y *\n\n  Description here.  \n" in
  let out := py_lit "As a developer, I want X so Y \n\nh2. Description\n\nDescription here." in
  process t = Returns (Some out)
  /\ (forall c r, out = c :: r -> isspace c = false)
  /\ (forall r c, out = r ++ [c] -> isspace c = false).
Proof.
  cbv zeta.
  assert (H : process (py_lit "  *As a developer, I want X so Y *\n\n  Description here.  \n")
              = Returns (Some (py_lit "As a developer, I want X so Y \n\nh2. Description\n\nDescription here.")))
    by (vm_compute; reflexivity).
  split; [exact H|].
  exact (process_output_trimmed _ _ H).
Defined.

(** X11: [process] makes a text longer by at most 18 characters: the
    inserted heading line [h2. Description] with its blank line, which
    takes the place of the line break after the story line. *)
Theorem process_length_bound (t out : text) :
  process t = Returns (Some out) ->
  List.length out <= List.length t + 18.
Proof.
  intros Hp. apply process_shapes in Hp. cbv zeta in Hp.
  pose proof (stripped_length t) as Hlen.
  set (s := strip (re_sub pat_blank_lines (py_lit "\n\n")
                     (apply_patterns patterns t))) in *.
  destruct Hp as [-> | (m & g & mid & _ & _ & Hs & Hmid & ->)]; [lia|].
  assert (Hl : List.length s = List.length g + S (List.length (after m)))
    by (rewrite Hs, length_app; reflexivity).
  assert (Hline : List.length (strip_chars (py_lit "*") (strip g))
                  <= List.length g).
  { unfold strip_chars, strip.
    eapply Nat.le_trans; apply strip_with_length. }
  assert (Hrest : List.length (strip (after m)) <= List.length (after m))
    by apply strip_with_length.
  assert (Hm : List.length mid <= 19)
    by (destruct Hmid as [-> | ->]; vm_compute; lia).
  rewrite !length_app. lia.
Qed.

Lemma process_length_bound_witness :
  let t := py_lit "As a developer, I want X so Y\nSome text" in
  let out := py_lit "As a developer, I want X so Y\n\nh2. Description\n\nSome text" in
  process t = Returns (Some out)
  /\ List.length out <= List.length t + 18.
Proof.
  cbv zeta.
  assert (H : process (py_lit "As a developer, I want X so Y\nSome text")
              = Returns (Some (py_lit "As a developer, I want X so Y\n\nh2. Description\n\nSome text")))
    by (vm_compute; reflexivity).
  split; [exact H|].
  exact (process_length_bound _ _ H).
Defined.

(** ** Line breaks in the output *)

Lemma stripped_no_triple (t : text) :
  ~ has_triple_break
      (strip (re_sub pat_blank_lines (py_lit "\n\n")
                (apply_patterns patterns t))).
Proof.
  intros H.
  destruct (blank_lines_no_triple _ (apply_patterns patterns t) true
              (le_n _)) as (Hno & _).
  apply Hno. eapply infix_of_trans; [exact H|]. apply strip_with_infix.
Qed.

(** X12: the output of [remove_acceptance_criteria] never contains three or
    more line breaks in a row, whatever the input: the clean-up pass leaves
    no such run and the final trimming creates none. *)
Theorem stripper_no_triple_break (t : text) :
  exists out,
    remove_acceptance_criteria (Some t) = Some out
    /\ ~ has_triple_break out.
Proof.
  eexists. split; [apply remove_acceptance_criteria_eq|].
  apply stripped_no_triple.
Qed.

(** Three line breaks in a row in [a ++ b] stand in [a], in [b], or across
    the two. *)
Lemma triple_break_app (a b : text) :
  has_triple_break (a ++ b) ->
  has_triple_break a \/ has_triple_break b
  \/ ((exists a', a = a' ++ [nl]) /\ exists b', b = nl :: b').
Proof.
  intros (pre & post & H).
  apply app_eq_app in H as [l [[H1 H2] | [H1 H2]]].
  - destruct l as [|c1 [|c2 [|c3 l]]].
    + right; left. exists [], post. simpl in H2. symmetry. exact H2.
    + right; right. simpl in H2. injection H2 as <- H2.
      split; [exists pre; exact H1 | eexists; symmetry; exact H2].
    + right; right. simpl in H2. injection H2 as <- <- H2.
      split; [|eexists; symmetry; exact H2].
      exists (pre ++ [nl]). rewrite <- app_assoc. exact H1.
    + left. simpl in H2. injection H2 as <- <- <- H2.
      exists pre, l. exact H1.
  - right; left. exists l, post. exact H2.
Qed.

Lemma no_triple_infix (w s : text) :
  infix_of w s -> ~ has_triple_break s -> ~ has_triple_break w.
Proof. intros Hw Hs H. apply Hs. eapply infix_of_trans; eassumption. Qed.

(** X13: three line breaks in a row show in the output of [process] only
    behind the story line: the formatter has matched, and the story line it
    emits, group 1 trimmed and then freed of its asterisks, ends in a line
    break.  In every other case, whether the formatter matched or not, the
    output of [process] has no three line breaks in a row. *)
Theorem triple_break_only_after_story (t out : text) :
  process t = Returns (Some out) ->
  has_triple_break out ->
  exists s m g z,
    remove_acceptance_criteria (Some t) = Some s
    /\ re_match pat_user_story s = Some m
    /\ group1 m = Some g
    /\ strip_chars (py_lit "*") (strip g) = z ++ [nl].
Proof.
  intros Hp Htriple. apply process_shapes in Hp. cbv zeta in Hp.
  pose proof (stripped_no_triple t) as Hs.
  set (s := strip (re_sub pat_blank_lines (py_lit "\n\n")
                     (apply_patterns patterns t))) in *.
  destruct Hp as [-> | (m & g & mid & E & Hg & Hsg & Hmid & ->)];
    [contradiction|].
  exists s, m, g.
  assert (Hline : ~ has_triple_break (strip_chars (py_lit "*") (strip g))).
  { apply (no_triple_infix _ s); [|assumption].
    eapply infix_of_trans; [apply strip_with_infix|].
    eapply infix_of_trans; [apply strip_with_infix|].
    rewrite Hsg. exists [], (nl :: after m). reflexivity. }
  assert (Hrest : ~ has_triple_break (strip (after m))).
  { apply (no_triple_infix _ s); [|assumption].
    eapply infix_of_trans; [apply strip_with_infix|].
    rewrite Hsg. exists (g ++ [nl]), []. rewrite app_nil_r, <- app_assoc.
    reflexivity. }
  assert (Hhead : forall b', strip (after m) <> nl :: b').
  { intros b' H. apply strip_with_head in H. discriminate. }
  assert (Hm : ~ has_triple_break mid)
    by (destruct Hmid as [-> | ->]; apply not_infix_of; vm_compute;
        reflexivity).
  apply triple_break_app in Htriple as [H | [H | [[z Hz] _]]].
  - contradiction.
  - exfalso. apply triple_break_app in H as [H | [H | [_ [b' Hb']]]].
    + contradiction.
    + contradiction.
    + exact (Hhead b' Hb').
  - exists z. split; [apply remove_acceptance_criteria_eq|].
    split; [exact E|]. split; [exact Hg | exact Hz].
Qed.

Lemma triple_break_only_after_story_witness :
  let t := py_lit "As a x so\n\n*\nz" in
  let out := py_lit "As a x so\n\n\n\nh2. Description\n\nz" in
  process t = Returns (Some out)
  /\ has_triple_break out
  /\ exists s m g z,
       remove_acceptance_criteria (Some t) = Some s
       /\ re_match pat_user_story s = Some m
       /\ group1 m = Some g
       /\ strip_chars (py_lit "*") (strip g) = z ++ [nl].
Proof.
  cbv zeta.
  assert (H1 : process (py_lit "As a x so\n\n*\nz")
               = Returns (Some (py_lit "As a x so\n\n\n\nh2. Description\n\nz")))
    by (vm_compute; reflexivity).
  assert (H2 : has_triple_break
                 (py_lit "As a x so\n\n\n\nh2. Description\n\nz"))
    by (apply infix_of_spec; vm_compute; reflexivity).
  split; [exact H1|]. split; [exact H2|].
  exact (triple_break_only_after_story _ _ H1 H2).
Defined.

(** The clean-up pattern has no anchor: a match does not depend on whether
    the position is the beginning of the text. *)
Lemma blank_lines_bos (b b' : bool) (s : text) :
  match_at pat_blank_lines b s = match_at pat_blank_lines b' s.
Proof.
  destruct (match_at pat_blank_lines b s) as [m|] eqn:E.
  - destruct (blank_lines_inv _ _ _ E) as [t ->].
    rewrite blank_lines_some in E. rewrite blank_lines_some.
    symmetry. exact E.
  - destruct (match_at pat_blank_lines b' s) as [m|] eqn:E'; [|reflexivity].
    destruct (blank_lines_inv _ _ _ E') as [t ->].
    rewrite blank_lines_some in E. discriminate.
Qed.

Lemma sub_blank_bos (b b' : bool) (s : text) :
  sub_from pat_blank_lines [nl; nl] b s 0
  = sub_from pat_blank_lines [nl; nl] b' s 0.
Proof.
  destruct s; cbn [sub_from]; rewrite (blank_lines_bos b b'); reflexivity.
Qed.

Lemma all_breaks_last (y : text) :
  y <> [] -> Forall (fun c => is_char nl c = true) y ->
  exists z, y = z ++ [nl].
Proof.
  intros Hne Hall. destruct (exists_last Hne) as (z & c & ->).
  apply Forall_app in Hall as [_ Hc].
  inversion Hc as [|c' l' H _]; subst.
  apply is_char_eq in H. subst. exists z. reflexivity.
Qed.

(** The clean-up of a text that does not end in a line break, followed by
    more text, is the clean-up of the two. *)
Lemma sub_blank_app :
  forall (n : nat) (a x : text) (b : bool),
    List.length a <= n ->
    (forall z, a <> z ++ [nl]) ->
    sub_from pat_blank_lines [nl; nl] b (a ++ x) 0
    = sub_from pat_blank_lines [nl; nl] b a 0
      ++ sub_from pat_blank_lines [nl; nl] false x 0.
Proof.
  assert (Hnil : forall b, sub_from pat_blank_lines [nl; nl] b [] 0 = []).
  { intros b. apply sub_from_nil. apply anchored_none;
      [apply blank_lines_anchored|]. intros [t Ht]; discriminate. }
  induction n as [|n IH]; intros a x b Hn Hlast.
  - destruct a; [|simpl in Hn; lia].
    rewrite Hnil. apply sub_blank_bos.
  - destruct a as [|c a]; [rewrite Hnil; apply sub_blank_bos|].
    destruct (match_at pat_blank_lines b ((c :: a) ++ x)) as [m|] eqn:E.
    + destruct (blank_lines_inv _ _ _ E) as [t Ht].
      destruct a as [|c2 [|c3 a3]].
      * exfalso. simpl in Ht. injection Ht as -> _.
        apply (Hlast []). reflexivity.
      * exfalso. simpl in Ht. injection Ht as _ -> _.
        apply (Hlast [c]). reflexivity.
      * simpl in Ht. injection Ht as -> -> -> _.
        change ((nl :: nl :: nl :: a3) ++ x) with (nl :: nl :: nl :: a3 ++ x).
        rewrite !blank_lines_step.
        destruct (lstrip_split (is_char nl) a3) as (y & Hy & Hall).
        pose proof (lstrip_length (is_char nl) a3) as Hlen.
        rewrite lstrip_app.
        destruct (lstrip (is_char nl) a3) as [|d l] eqn:El.
        -- exfalso. rewrite app_nil_r in Hy. subst y.
           destruct (all_breaks_last (nl :: nl :: nl :: a3)) as [z Hz].
           ++ discriminate.
           ++ repeat (constructor; [reflexivity|]). assumption.
           ++ exact (Hlast z Hz).
        -- cbn [app]. f_equal. f_equal.
           change (d :: l ++ x) with ((d :: l) ++ x).
           apply IH.
           ++ simpl in Hn, Hlen |- *. lia.
           ++ intros z Hz. apply (Hlast (nl :: nl :: nl :: y ++ z)).
              rewrite Hy, Hz. cbn [app]. rewrite app_assoc. reflexivity.
    + change ((c :: a) ++ x) with (c :: a ++ x) in *.
      rewrite sub_from_none by assumption.
      assert (E' : match_at pat_blank_lines b (c :: a) = None).
      { destruct (match_at pat_blank_lines b (c :: a)) as [m|] eqn:E';
          [|reflexivity].
        destruct (blank_lines_inv _ _ _ E') as [t Ht].
        injection Ht as -> Ht. rewrite Ht in E. cbn [app] in E.
        rewrite blank_lines_some in E. discriminate. }
      rewrite (sub_from_none _ _ _ _ _ E'). cbn [app]. f_equal.
      apply IH; [simpl in Hn; lia|].
      intros z Hz. apply (Hlast (c :: z)). rewrite Hz. reflexivity.
Qed.

Lemma lstrip_breaks (k : nat) (b : text) :
  lstrip (is_char nl) b = b ->
  lstrip (is_char nl) (repeat nl k ++ b) = b.
Proof.
  intros Hb. induction k as [|k IH]; [exact Hb|].
  cbn [repeat app lstrip]. change (is_char nl nl) with true. exact IH.
Qed.

(** X14: the clean-up pass turns a run of three or more line breaks into
    exactly two.  When [a] does not end and [b] does not begin with a line
    break, the run of [3 + k] line breaks between them is replaced by two
    line breaks, and [a] and [b] are cleaned up each on its own. *)
Theorem blank_run_becomes_two (a b : text) (k : nat) :
  rstrip (is_char nl) a = a ->
  lstrip (is_char nl) b = b ->
  re_sub pat_blank_lines (py_lit "\n\n") (a ++ repeat nl (3 + k) ++ b)
  = re_sub pat_blank_lines (py_lit "\n\n") a
    ++ py_lit "\n\n" ++ re_sub pat_blank_lines (py_lit "\n\n") b.
Proof.
  intros Ha Hb. unfold re_sub.
  rewrite (sub_blank_app _ a _ true (le_n _)).
  - f_equal.
    change (repeat nl (3 + k) ++ b)
      with (nl :: nl :: nl :: repeat nl k ++ b).
    change (py_lit "\n\n") with [nl; nl].
    rewrite blank_lines_step, lstrip_breaks by assumption.
    cbn [app]. f_equal. f_equal. apply sub_blank_bos.
  - intros z Hz. rewrite Hz in Ha. apply rstrip_last in Ha. discriminate.
Qed.

Lemma blank_run_becomes_two_witness :
  let a := py_lit "First paragraph." in
  let b := py_lit "Second paragraph.\n\n\nThird." in
  rstrip (is_char nl) a = a
  /\ lstrip (is_char nl) b = b
  /\ re_sub pat_blank_lines (py_lit "\n\n") (a ++ repeat nl (3 + 2) ++ b)
     = re_sub pat_blank_lines (py_lit "\n\n") a
       ++ py_lit "\n\n" ++ re_sub pat_blank_lines (py_lit "\n\n") b.
Proof.
  cbv zeta.
  assert (Ha : rstrip (is_char nl) (py_lit "First paragraph.")
               = py_lit "First paragraph.")
    by (vm_compute; reflexivity).
  assert (Hb : lstrip (is_char nl) (py_lit "Second paragraph.\n\n\nThird.")
               = py_lit "Second paragraph.\n\n\nThird.")
    by (vm_compute; reflexivity).
  split; [exact Ha|]. split; [exact Hb|].
  exact (blank_run_becomes_two _ _ 2 Ha Hb).
Defined.
